(** * vue-metamorph: the transform pipeline

    A shallow embedding of [transform], [transformVueFile],
    [transformTypescriptFile] (the transform module), [parseVue], [parseTs]
    (the parse module) and [setParents] (the builders module), and the
    properties of the change-set reduction, of the script re-rendering and of
    the plugin loop.

    - Text is a [string]; a JavaScript value is a tree of type [value]; a
      [throw] is the [Throw] outcome of a computation; in-place mutation is
      state passing.
    - The library routines whose algorithm decides a property are written
      out: deep-diff's comparison, lodash [get] and [uniqWith],
      vue-eslint-parser's [traverseNodes].
    - The other collaborators are the fields of two interfaces: the text
      buffer ([MagicString]) and, in [Externals], recast, the Vue parser and
      its visitor keys, [stringify] and [findAll].  The module [Sample] gives
      one instance of each, on which every property is also run. *)

From Stdlib Require Import List String Ascii ZArith Bool Arith Lia.
From Stdlib Require Import DecimalString.
Import ListNotations.
Local Open Scope string_scope.
Local Open Scope nat_scope.
Local Open Scope list_scope.

Set Implicit Arguments.

(** ** Exceptions *)

(** What a [throw] carries.  [TypeError] is the engine's own error for a
    property read on [undefined] or [null]; [Raised] is anything thrown by
    code outside the pipeline (a plugin, a parser, the text buffer);
    [OutOfFuel] is not a JavaScript exception: it marks a traversal of the
    model that was given too little fuel. *)
Inductive exn : Type :=
| TypeError (msg : string)
| RangeError (msg : string)
| Raised (what : string)
| OutOfFuel.

Inductive outcome (A : Type) : Type :=
| Ok (a : A)
| Throw (e : exn).

Arguments Ok {A} a.
Arguments Throw {A} e.

Definition bind {A B : Type} (m : outcome A) (k : A -> outcome B) : outcome B :=
  match m with
  | Ok a => k a
  | Throw e => Throw e
  end.

Notation "x <- m ;; k" := (bind m (fun x => k))
  (at level 61, m at next level, right associativity).
Notation "' pat <- m ;; k" := (bind m (fun x => match x with pat => k end))
  (at level 61, pat pattern, m at next level, right associativity).

(** ** Text *)

Module Text.
Local Open Scope string_scope.

(** [s.startsWith(p)] *)
Definition startsWith (s p : string) : bool := String.prefix p s.

(** [s.includes(p)] *)
Fixpoint includes (s p : string) : bool :=
  startsWith s p ||
  match s with
  | EmptyString => false
  | String _ s' => includes s' p
  end.

(** [s.endsWith(p)] *)
Definition endsWith (s p : string) : bool :=
  Nat.leb (String.length p) (String.length s) &&
  String.eqb (substring (String.length s - String.length p) (String.length p) s) p.

Definition newline : string := String (ascii_of_nat 10) EmptyString.

(** [c.repeat(n)] for a count that is already known to be non-negative. *)
Fixpoint repeat (c : string) (n : nat) : string :=
  match n with
  | O => EmptyString
  | S n' => c ++ repeat c n'
  end.

Fixpoint dropN (n : nat) (s : string) : string :=
  match n, s with
  | O, _ => s
  | S n', String _ s' => dropN n' s'
  | S _, EmptyString => EmptyString
  end.

End Text.

(** ** Paths into a tree *)

(** A step of a deep-diff path: a property name or an array index
    ([string | number]). *)
Inductive seg : Type :=
| Key (k : string)
| Idx (i : nat).

Definition seg_eqb (a b : seg) : bool :=
  match a, b with
  | Key x, Key y => String.eqb x y
  | Idx i, Idx j => Nat.eqb i j
  | _, _ => false
  end.

Definition path := list seg.

(** lodash [isEqual] on two paths. *)
Fixpoint isEqual (a b : path) : bool :=
  match a, b with
  | [], [] => true
  | x :: a', y :: b' => seg_eqb x y && isEqual a' b'
  | _, _ => false
  end.

Module Arr.

(** [a.pop()], keeping the array: the last element goes, an empty array
    stays empty. *)
Definition pop {A : Type} (a : list A) : list A := removelast a.

(** [a.at(-k)] for [k >= 1]: [undefined] (here [None]) when the array has
    fewer than [k] elements. *)
Definition at_neg {A : Type} (k : nat) (a : list A) : option A :=
  if List.length a <? k then None else nth_error a (List.length a - k).

(** [a.slice(0, n)] *)
Definition slice0 {A : Type} (n : nat) (a : list A) : list A := firstn n a.

End Arr.

(** [x === 'name'] for the result of [Array.prototype.at]. *)
Definition is_key (x : option seg) (name : string) : bool :=
  match x with
  | Some (Key k) => String.eqb k name
  | _ => false
  end.

(** The path correction at the head of the [diff.map] callback of
    [transformVueFile]: from the path of a changed property to the path of the
    node that is re-printed. *)
Definition nodePath (p : option path) : path :=
  let path0 := match p with Some l => l | None => [] end in
  let path1 := Arr.pop path0 in
  let path2 := if is_key (Arr.at_neg 1 path1) "startTag" then Arr.pop path1 else path1 in
  let path3 := if is_key (Arr.at_neg 2 path2) "key" then Arr.pop path2 else path2 in
  path3.

(** ** JavaScript values *)

(** The trees the pipeline works on (the template AST, plugin options) are
    plain JavaScript data.  An object is the list of its own enumerable
    properties in [Object.keys] order; its keys are pairwise distinct
    ([wf_value]).  The [parent] back-references of the AST are not stored: a
    node's parent is where a traversal reaches it from. *)
#[local] Unset Elimination Schemes.
Inductive value : Type :=
| VUndefined
| VNull
| VBool (b : bool)
| VNum (n : Z)
| VStr (s : string)
| VArr (items : list value)
| VObj (fields : list (string * value)).
#[local] Set Elimination Schemes.

Definition fields := list (string * value).

Fixpoint lookup (k : string) (fs : fields) : option value :=
  match fs with
  | [] => None
  | (k', v) :: fs' => if String.eqb k' k then Some v else lookup k fs'
  end.

Definition keys (fs : fields) : list string := map fst fs.

(** The key a path step names: a number is used as a property name through
    its decimal form. *)
Definition keyName (k : seg) : string :=
  match k with
  | Key s => s
  | Idx i => NilZero.string_of_uint (Nat.to_uint i)
  end.

(** The array index a path step names, if any. *)
Definition arrayIndex (k : seg) : option nat :=
  match k with
  | Idx i => Some i
  | Key s =>
      match NilZero.uint_of_string s with
      | Some u =>
          if String.eqb (NilZero.string_of_uint (Nat.to_uint (Nat.of_uint u))) s
          then Some (Nat.of_uint u) else None
      | None => None
      end
  end.

(** [o[k]] on a base that is neither [undefined] nor [null].  Inherited
    members (methods of [Array.prototype] and the like) are outside the
    model and read as [undefined]. *)
Definition member (o : value) (k : seg) : value :=
  match o with
  | VObj fs =>
      match lookup (keyName k) fs with
      | Some v => v
      | None => VUndefined
      end
  | VArr xs =>
      match arrayIndex k with
      | Some i => nth i xs VUndefined
      | None =>
          if String.eqb (keyName k) "length"
          then VNum (Z.of_nat (List.length xs)) else VUndefined
      end
  | VStr s =>
      match arrayIndex k with
      | Some i =>
          match String.get i s with
          | Some c => VStr (String c EmptyString)
          | None => VUndefined
          end
      | None =>
          if String.eqb (keyName k) "length"
          then VNum (Z.of_nat (String.length s)) else VUndefined
      end
  | _ => VUndefined
  end.

Definition nullish (v : value) : bool :=
  match v with
  | VUndefined | VNull => true
  | _ => false
  end.

(** [o[k]] or [o.k]: a [TypeError] on [undefined] and [null]. *)
Definition read (o : value) (k : seg) : outcome value :=
  if nullish o
  then Throw (TypeError "Cannot read properties of undefined or null")
  else Ok (member o k).

(** [o?.[k]] *)
Definition readOpt (o : value) (k : seg) : value :=
  if nullish o then VUndefined else member o k.

(** [v === 'text'] *)
Definition is_str (v : value) (text : string) : bool :=
  match v with
  | VStr s => String.eqb s text
  | _ => false
  end.

(** Truthiness, as tested by [if (x)] and [a && b]. *)
Definition truthy (v : value) : bool :=
  match v with
  | VUndefined | VNull => false
  | VBool b => b
  | VNum n => negb (Z.eqb n 0)
  | VStr s => negb (String.eqb s "")
  | VArr _ | VObj _ => true
  end.

Fixpoint setField (k : string) (v : value) (fs : fields) : fields :=
  match fs with
  | [] => [(k, v)]
  | (k', v') :: fs' =>
      if String.eqb k' k then (k, v) :: fs' else (k', v') :: setField k v fs'
  end.

(** [xs[i] = v]: an index past the end extends the array. *)
Definition setItem (i : nat) (v : value) (xs : list value) : list value :=
  firstn i (xs ++ List.repeat VUndefined (i - List.length xs)) ++ v :: skipn (S i) xs.

(** [o[k] = v] as a new value of [o].  Assigning to a property of a
    primitive has no effect. *)
Definition assign (o : value) (k : seg) (v : value) : value :=
  match o with
  | VObj fs => VObj (setField (keyName k) v fs)
  | VArr xs =>
      match arrayIndex k with
      | Some i => VArr (setItem i v xs)
      | None => o
      end
  | _ => o
  end.

(** The loop of lodash [baseGet]: it follows the path while the current
    object is not nullish; stopping before the end of the path gives
    [undefined]. *)
Fixpoint walk (object : value) (p : path) : value :=
  match p with
  | [] => object
  | k :: rest => if nullish object then VUndefined else walk (member object k) rest
  end.

(** lodash [baseGet(object, path)] for an array path: an empty path gives
    [undefined] too ([index && index == length]). *)
Definition baseGet (object : value) (p : path) : value :=
  match p with
  | [] => VUndefined
  | _ :: _ => walk object p
  end.

(** lodash [get(object, path)], without a default value. *)
Definition get (object : value) (p : path) : value :=
  if nullish object then VUndefined else baseGet object p.

(** Nesting depth of a value, the measure for traversals. *)
Fixpoint depth (v : value) : nat :=
  match v with
  | VArr xs => S (fold_right (fun x m => Nat.max (depth x) m) 0 xs)
  | VObj fs => S (fold_right (fun kv m => Nat.max (depth (snd kv)) m) 0 fs)
  | _ => 0
  end.

(** Objects have pairwise distinct keys, at every level. *)
Fixpoint distinct (ks : list string) : bool :=
  match ks with
  | [] => true
  | k :: ks' => negb (existsb (String.eqb k) ks') && distinct ks'
  end.

Fixpoint wf_value (v : value) : bool :=
  match v with
  | VArr xs => forallb wf_value xs
  | VObj fs => distinct (keys fs) && forallb (fun kv => wf_value (snd kv)) fs
  | _ => true
  end.

(** ** deep-diff *)

(** The kind of a change entry: N(ew), D(eleted), E(dited), A(rray). *)
Inductive kind : Type := N | D | E | A.

Definition kind_eqb (a b : kind) : bool :=
  match a, b with
  | N, N | D, D | E, E | A, A => true
  | _, _ => false
  end.

(** A change entry.  [DiffArray] reports an element past the shorter of two
    arrays; its [item] is a [DiffNew] or a [DiffDeleted] without a path.  The
    constructors keep a path only when it is not empty, so the path of a
    change at the root is [undefined] (here [None]). *)
Inductive change : Type :=
| DiffNew (p : option path) (rhs : value)
| DiffDeleted (p : option path) (lhs : value)
| DiffEdit (p : option path) (lhs rhs : value)
| DiffArray (p : option path) (index : nat) (item : change).

Definition change_kind (c : change) : kind :=
  match c with
  | DiffNew _ _ => N
  | DiffDeleted _ _ => D
  | DiffEdit _ _ _ => E
  | DiffArray _ _ _ => A
  end.

Definition change_path (c : change) : option path :=
  match c with
  | DiffNew p _ | DiffDeleted p _ | DiffEdit p _ _ | DiffArray p _ _ => p
  end.

Definition keepPath (p : path) : option path :=
  match p with
  | [] => None
  | _ :: _ => Some p
  end.

(** deep-diff's [realTypeOf], on the values of the model. *)
Inductive realType : Type :=
| TUndefined | TNull | TBoolean | TNumber | TString | TArray | TObject.

Definition realTypeOf (v : value) : realType :=
  match v with
  | VUndefined => TUndefined
  | VNull => TNull
  | VBool _ => TBoolean
  | VNum _ => TNumber
  | VStr _ => TString
  | VArr _ => TArray
  | VObj _ => TObject
  end.

Definition realType_eqb (a b : realType) : bool :=
  match a, b with
  | TUndefined, TUndefined | TNull, TNull | TBoolean, TBoolean
  | TNumber, TNumber | TString, TString | TArray, TArray | TObject, TObject => true
  | _, _ => false
  end.

(** [lhs === rhs] on two primitives of the same type. *)
Definition same_primitive (a b : value) : bool :=
  match a, b with
  | VUndefined, VUndefined => true
  | VNull, VNull => true
  | VBool x, VBool y => Bool.eqb x y
  | VNum x, VNum y => Z.eqb x y
  | VStr x, VStr y => String.eqb x y
  | _, _ => false
  end.

Section DeepDiff.

(** [prefilter(path, key)]: a true answer drops the property [key] of the
    object at [path] from the comparison. *)
Variable prefilter : path -> seg -> bool.

(** The elements past the common length, from the last one down:
    [start] is the index of the first element of [xs]. *)
Fixpoint extraItems (mk : value -> change) (p : path) (start : nat) (xs : list value)
  : list change :=
  match xs with
  | [] => []
  | x :: xs' => extraItems mk p (S start) xs' ++ [DiffArray (keepPath p) start (mk x)]
  end.

(** The recursive comparison of deep-diff, for a left and a right side that
    both exist, at the path [p] of the pair (the [prefilter] test on the key
    that led here is made by the caller, as the first thing the library does
    on entry).  The trees are finite, so the library's cycle stack never
    fires and is left out.

    Objects: the keys of [lhs] in order, each compared with the same key of
    [rhs] or reported deleted; then the keys of [rhs] that [lhs] lacks, each
    reported new (the library nulls the matched entries of [pkeys] and skips
    the falsy ones, which also skips an empty key).  Arrays: the extra
    elements first, then the common indices from the last to the first. *)
Fixpoint deepDiffRec (p : path) (lhs rhs : value) {struct lhs} : list change :=
  if negb (realType_eqb (realTypeOf lhs) (realTypeOf rhs))
  then [DiffEdit (keepPath p) lhs rhs]
  else
    match lhs, rhs with
    | VArr ls, VArr rs =>
        let common :=
          (fix loop (i : nat) (ls rs : list value) {struct ls} : list change :=
             match ls, rs with
             | l :: ls', r :: rs' =>
                 loop (S i) ls' rs' ++
                 (if prefilter p (Idx i) then [] else deepDiffRec (p ++ [Idx i]) l r)
             | _, _ => []
             end) 0 ls rs in
        extraItems (DiffNew None) p (List.length ls) (skipn (List.length ls) rs) ++
        extraItems (DiffDeleted None) p (List.length rs) (skipn (List.length rs) ls) ++
        common
    | VObj lf, VObj rf =>
        let left :=
          (fix loop (lf : fields) {struct lf} : list change :=
             match lf with
             | [] => []
             | (k, v) :: lf' =>
                 (if prefilter p (Key k) then []
                  else match lookup k rf with
                       | Some v' => deepDiffRec (p ++ [Key k]) v v'
                       | None => [DiffDeleted (keepPath (p ++ [Key k])) v]
                       end) ++ loop lf'
             end) lf in
        let right :=
          flat_map (fun kv : string * value =>
                      let (k, v') := kv in
                      if existsb (String.eqb k) (keys lf) then []
                      else if String.eqb k "" then []
                      else if prefilter p (Key k) then []
                      else [DiffNew (keepPath (p ++ [Key k])) v']) rf in
        left ++ right
    | _, _ =>
        if same_primitive lhs rhs then [] else [DiffEdit (keepPath p) lhs rhs]
    end.

(** [deepDiff(lhs, rhs, prefilter)]: at the root a side exists when it is
    not [undefined].  The library answers [undefined] instead of an empty
    list; the caller's [if (diff)] is the test that the list is not empty. *)
Definition deepDiff (lhs rhs : value) : list change :=
  match lhs, rhs with
  | VUndefined, VUndefined => []
  | VUndefined, _ => [DiffNew None rhs]
  | _, VUndefined => [DiffDeleted None lhs]
  | _, _ => deepDiffRec [] lhs rhs
  end.

End DeepDiff.

(** [ignoreProperties] of the transform module. *)
Definition ignoreProperties : list string := ["parent"; "loc"; "range"; "variables"].

(** The names every object literal inherits from [Object.prototype]: the
    lookup [ignoreProperties[name]] finds them too, and what it finds is
    truthy. *)
Definition objectPrototypeKeys : list string :=
  ["constructor"; "__proto__"; "hasOwnProperty"; "isPrototypeOf";
   "propertyIsEnumerable"; "toLocaleString"; "toString"; "valueOf";
   "__defineGetter__"; "__defineSetter__"; "__lookupGetter__"; "__lookupSetter__"].

(** The prefilter handed to deep-diff: [(_, name) => !!ignoreProperties[name]]. *)
Definition ignored (_ : path) (name : seg) : bool :=
  existsb (String.eqb (keyName name)) ignoreProperties ||
  existsb (String.eqb (keyName name)) objectPrototypeKeys.

(** ** The change-set reduction of [transformVueFile] *)

Record ChangedNode : Type := mkChangedNode {
  cn_path : path;
  cn_node : value;
  cn_start : value;
  cn_end : value
}.

(** [originalNode.range[0]] and [originalNode.range[1]]. *)
Definition rangeOf (originalNode : value) : outcome (value * value) :=
  range <- read originalNode (Key "range") ;;
  s <- read range (Idx 0) ;;
  e <- read range (Idx 1) ;;
  Ok (s, e).

(** The test that sets [rootNodeChanged]:
    [path.length <= 3 && p.kind !== 'E']. *)
Definition touchesRoot (p : change) : bool :=
  (List.length (nodePath (change_path p)) <=? 3) && negb (kind_eqb (change_kind p) E).

(** One call of the [diff.map] callback: [rootNodeChanged] is the variable
    the callback closes over, read and written by every call. *)
Definition changedNode (originalTemplate templateAst : value)
    (rootNodeChanged : bool) (p : change) : outcome (ChangedNode * bool) :=
  let path := nodePath (change_path p) in
  let rootNodeChanged := if touchesRoot p then true else rootNodeChanged in
  let originalNode :=
    if rootNodeChanged then originalTemplate else get originalTemplate path in
  '(s, e) <- rangeOf originalNode ;;
  Ok (mkChangedNode path
        (if List.length path =? 0 then templateAst else get templateAst path) s e,
      rootNodeChanged).

(** [diff.map(...)], with the final value of [rootNodeChanged]. *)
Fixpoint changedNodes (originalTemplate templateAst : value)
    (rootNodeChanged : bool) (diff : list change)
  : outcome (list ChangedNode * bool) :=
  match diff with
  | [] => Ok ([], rootNodeChanged)
  | p :: rest =>
      '(c, flag) <- changedNode originalTemplate templateAst rootNodeChanged p ;;
      '(cs, flag') <- changedNodes originalTemplate templateAst flag rest ;;
      Ok (c :: cs, flag')
  end.

(** The comparator handed to [uniqWith]. *)
Definition samePathOrAncestor (a b : ChangedNode) : bool :=
  if List.length (cn_path a) =? List.length (cn_path b)
  then isEqual (cn_path a) (cn_path b)
  else
    let a_is_lesser := List.length (cn_path a) <? List.length (cn_path b) in
    let lesser := if a_is_lesser then a else b in
    let greater := if a_is_lesser then b else a in
    isEqual (cn_path lesser) (Arr.slice0 (List.length (cn_path lesser)) (cn_path greater)).

Section Lodash.

Variable T : Type.

(** lodash [arrayIncludesWith(array, value, comparator)] *)
Definition arrayIncludesWith (array : list T) (v : T) (comparator : T -> T -> bool) : bool :=
  existsb (fun seen => comparator v seen) array.

(** lodash [baseUniq] with a comparator: a value is kept unless the
    comparator matches it with a value kept before. *)
Fixpoint baseUniq (comparator : T -> T -> bool) (array result : list T) : list T :=
  match array with
  | [] => result
  | v :: rest =>
      if arrayIncludesWith result v comparator
      then baseUniq comparator rest result
      else baseUniq comparator rest (result ++ [v])
  end.

Definition uniqWith (array : list T) (comparator : T -> T -> bool) : list T :=
  baseUniq comparator array [].

End Lodash.

Definition collapsedChanges (changed : list ChangedNode) : list ChangedNode :=
  uniqWith changed samePathOrAncestor.

(** ** What the pipeline takes from outside *)

(** magic-string, as far as the transform uses it: a buffer made from the
    source text, range replacements keyed to the original offsets (they can
    throw, e.g. on an edit inside an edited range), and the final text.  An
    untouched buffer prints as the source text. *)
Class MagicString : Type := {
  buffer : Type;
  ms_new : string -> buffer;
  ms_update : buffer -> value -> value -> string -> outcome buffer;
  ms_toString : buffer -> string;
  ms_toString_new : forall code, ms_toString (ms_new code) = code
}.

(** What [templateBody] gives access to: the document fragment it hangs
    under. *)
Record TemplateBody : Type := { tb_parent : value }.

(** The part of the AST of vue-eslint-parser that the transform reads. *)
Record SfcAst : Type := { templateBody : option TemplateBody }.

(** The remaining collaborators: recast (a script AST is the opaque
    [Program]; printing with [recastOptions] also accepts a missing AST),
    vue-eslint-parser with its visitor keys, and the functions of this
    package that the transform imports, [stringify] and [findAll]. *)
Class Externals : Type := {
  Program : Type;
  recast_parse : string -> outcome Program;
  recast_print : option Program -> string;
  vueParser_parse : string -> outcome SfcAst;
  visitorKeys : value -> list string;
  findAll : value -> fields -> list value;
  stringify : value -> string
}.

(** ** Traversal *)

(** What a visited node's parent is: nothing (the node the traversal
    started from), or the node at an address, a path from the start node;
    the start node itself is at the empty address.  After
    [setParents(templateAst)], which stores in every node the parent the
    traversal reaches it from, [node.parent === templateAst] is the test that
    the parent is the node at the empty address. *)
Inductive parentRef : Type :=
| NoParent
| ParentAt (address : path).

Definition isRoot (parent : parentRef) : bool :=
  match parent with
  | ParentAt [] => true
  | _ => false
  end.

(** A reference to the node at an address.  A tree value cannot hold its
    own ancestors, so the reference is written as the address: a [#], then a
    [/] and the step for each step of the path. *)
Fixpoint pointer (address : path) : string :=
  match address with
  | [] => ""
  | k :: rest => ("/" ++ keyName k ++ pointer rest)%string
  end.

Definition nodeRef (address : path) : value := VStr ("#" ++ pointer address).

(** The [parent] argument of [enterNode] as a value: [null] for the start
    node. *)
Definition parentValue (parent : parentRef) : value :=
  match parent with
  | NoParent => VNull
  | ParentAt address => nodeRef address
  end.

(** vue-eslint-parser's [isNode]. *)
Definition isNode (x : value) : bool :=
  match x with
  | VObj fs =>
      match lookup "type" fs with
      | Some (VStr _) => true
      | _ => false
      end
  | _ => false
  end.

Section Traverse.

Variable St : Type.
Variable keysOf : value -> list string.

(** [enterNode(node, parent)]: it may mutate the node, and a state of its
    own.  [leaveNode] is empty at every use. *)
Variable enterNode : value -> parentRef -> St -> outcome (value * St).

Section Children.

(** The visit of a child, given the address it is found at. *)
Variable visit : path -> value -> St -> outcome (value * St).

Fixpoint traverseItems (base : path) (i : nat) (xs : list value) (st : St)
  : outcome (list value * St) :=
  match xs with
  | [] => Ok ([], st)
  | x :: xs' =>
      '(x', st1) <- (if isNode x then visit (base ++ [Idx i]) x st else Ok (x, st)) ;;
      '(xs'', st2) <- traverseItems base (S i) xs' st1 ;;
      Ok (x' :: xs'', st2)
  end.

Fixpoint traverseKeys (here : path) (ks : list string) (node : value) (st : St)
  : outcome (value * St) :=
  match ks with
  | [] => Ok (node, st)
  | k :: ks' =>
      match member node (Key k) with
      | VArr xs =>
          '(xs', st1) <- traverseItems (here ++ [Key k]) 0 xs st ;;
          traverseKeys here ks' (assign node (Key k) (VArr xs')) st1
      | child =>
          if isNode child
          then '(child', st1) <- visit (here ++ [Key k]) child st ;;
               traverseKeys here ks' (assign node (Key k) child') st1
          else traverseKeys here ks' node st
      end
  end.

End Children.

(** vue-eslint-parser's [traverseNodes]: pre-order, the children under the
    node's visitor keys in order, each array element or single child that is
    a node; a child is entered with the node it hangs under as its parent.
    The result is the node as the visit left it.  [here] is the address of
    [node]. *)
Fixpoint traverse (fuel : nat) (parent : parentRef) (here : path) (node : value) (st : St)
  : outcome (value * St) :=
  match fuel with
  | O => Throw OutOfFuel
  | S fuel' =>
      '(node1, st1) <- enterNode node parent st ;;
      traverseKeys (traverse fuel' (ParentAt here)) here (keysOf node1) node1 st1
  end.

Definition traverseNodes (node : value) (st : St) : outcome (value * St) :=
  traverse (S (depth node)) NoParent [] node st.

End Traverse.

(** ** Re-rendering the scripts into the template *)

Definition METAMORPH_START : string := "/* METAMORPH_START */".

Fixpoint leadingNewlines (s : string) : nat :=
  match s with
  | String c s' => if Ascii.eqb c (ascii_of_nat 10) then S (leadingNewlines s') else 0
  | EmptyString => 0
  end.

(** The length of the match of [/\/\* METAMORPH_START \*\/\n+/] at the
    start of [s], if it matches there. *)
Definition markerAt (s : string) : option nat :=
  if Text.startsWith s METAMORPH_START
  then match leadingNewlines (Text.dropN (String.length METAMORPH_START) s) with
       | O => None
       | S n => Some (String.length METAMORPH_START + S n)
       end
  else None.

(** [s.replace(/\/\* METAMORPH_START \*\/\n+/g, '\n')]; [skip] counts the
    characters of the current match that are still to be dropped. *)
Fixpoint replaceMarkerFrom (skip : nat) (s : string) : string :=
  match s with
  | EmptyString => EmptyString
  | String c s' =>
      match skip with
      | S k => replaceMarkerFrom k s'
      | O =>
          match markerAt s with
          | Some n => String (ascii_of_nat 10) (replaceMarkerFrom (n - 1) s')
          | None => String c (replaceMarkerFrom 0 s')
          end
      end
  end.

Definition replaceMarker (s : string) : string := replaceMarkerFrom 0 s.

(** [`${newCode.startsWith('\n') ? '' : '\n'}${newCode}\n`] *)
Definition scriptText (newCode : string) : string :=
  ((if Text.startsWith newCode Text.newline then "" else Text.newline)
     ++ newCode ++ Text.newline)%string.

Section Pipeline.

Context {X : Externals} {M : MagicString}.

(** [scriptASTs[i]]: a [TypeError] when [scriptASTs] is [undefined]. *)
Definition scriptAt (scriptASTs : option (list Program)) (i : nat) : outcome (option Program) :=
  match scriptASTs with
  | Some asts => Ok (nth_error asts i)
  | None => Throw (TypeError "Cannot read properties of undefined")
  end.

(** [enterNode] of the traversal in [transformVueFile]; the state is the
    counter [i].  The test [node.parent === templateAst] reads the link
    [setParents] stored just before, which is the parent this traversal
    hands over too: the node is a child of the root. *)
Definition enterScript (scriptASTs : option (list Program))
    (node : value) (parent : parentRef) (i : nat) : outcome (value * nat) :=
  if is_str (member node (Key "type")) "VElement"
     && is_str (member node (Key "name")) "script"
     && isRoot parent
  then
    let children := member node (Key "children") in
    first <- read children (Idx 0) ;;
    if is_str (readOpt first (Key "type")) "VText"
    then
      ast <- scriptAt scriptASTs i ;;
      let newCode := replaceMarker (recast_print ast) in
      let first' := assign first (Key "value") (VStr (scriptText newCode)) in
      Ok (assign node (Key "children") (assign children (Idx 0) first'), S i)
    else Ok (node, i)
  else Ok (node, i).

Definition rerenderScripts (scriptASTs : option (list Program)) (templateAst : value)
  : outcome value :=
  '(t, _) <- traverseNodes visitorKeys (enterScript scriptASTs) templateAst 0 ;;
  Ok t.

(** [setParents] of the builders module: the traversal whose [enterNode]
    stores in each node the parent it is handed, over whatever [parent] the
    node had. *)
Definition setParents (node : value) : outcome value :=
  '(t, _) <- traverseNodes visitorKeys
               (fun innerNode (parent : parentRef) (st : unit) =>
                  Ok (assign innerNode (Key "parent") (parentValue parent), st))
               node tt ;;
  Ok t.

End Pipeline.

(** ** Parsing *)

(** [ToIntegerOrInfinity] of an argument of [String.prototype.slice], with
    the value an omitted argument stands for.  Strings are read as [NaN]. *)
Definition sliceIndex (omitted : Z) (v : value) : Z :=
  match v with
  | VUndefined => omitted
  | VNum n => n
  | VBool true => 1%Z
  | _ => 0%Z
  end.

Definition clampIndex (len n : Z) : Z :=
  if (n <? 0)%Z then Z.max (len + n) 0 else Z.min n len.

(** A text is held in its UTF-8 encoding, one byte per character of the
    [string]; JavaScript counts and indexes it in UTF-16 code units.  A byte
    below 128 or the lead byte of a two- or three-byte sequence stands for
    one unit, the lead byte of a four-byte sequence for two (a surrogate
    pair), a continuation byte for none.  A surrogate that a cut leaves on
    its own is written as the three-byte sequence of its code, so that every
    JavaScript string has an encoding. *)
Definition unitsOf (c : ascii) : nat :=
  let n := nat_of_ascii c in
  if n <? 128 then 1 else if n <? 192 then 0 else if n <? 240 then 1 else 2.

(** [s.length] *)
Fixpoint unitLength (s : string) : nat :=
  match s with
  | EmptyString => 0
  | String c s' => unitsOf c + unitLength s'
  end.

Definition byteAt (i : nat) (s : string) : Z :=
  match String.get i s with
  | Some c => Z.of_nat (nat_of_ascii c)
  | None => 0%Z
  end.

(** The code point of the four-byte sequence that starts with [c] and goes
    on with [s], and its two surrogates. *)
Definition codePoint4 (c : ascii) (s : string) : Z :=
  (Z.land (Z.of_nat (nat_of_ascii c)) 7 * 262144 + Z.land (byteAt 0 s) 63 * 4096
   + Z.land (byteAt 1 s) 63 * 64 + Z.land (byteAt 2 s) 63)%Z.

Definition highSurrogate (cp : Z) : Z := (55296 + (cp - 65536) / 1024)%Z.

Definition lowSurrogate (cp : Z) : Z := (56320 + (cp - 65536) mod 1024)%Z.

Definition encode3 (u : Z) : string :=
  String (ascii_of_nat (Z.to_nat (224 + u / 4096)))
    (String (ascii_of_nat (Z.to_nat (128 + (u / 64) mod 64)))
       (String (ascii_of_nat (Z.to_nat (128 + u mod 64))) EmptyString)).

Fixpoint dropContinuation (s : string) : string :=
  match s with
  | String c s' => if unitsOf c =? 0 then dropContinuation s' else s
  | EmptyString => EmptyString
  end.

(** The text from code unit [n] on. *)
Fixpoint dropUnits (n : nat) (s : string) {struct s} : string :=
  match s with
  | EmptyString => EmptyString
  | String c s' =>
      match n with
      | O => s
      | S _ =>
          match unitsOf c with
          | O => dropUnits n s'
          | u =>
              if u <=? n
              then (if n - u =? 0 then dropContinuation s' else dropUnits (n - u) s')
              else (encode3 (lowSurrogate (codePoint4 c s')) ++ dropContinuation s')%string
          end
      end
  end.

(** The first [m] code units of a text. *)
Fixpoint takeUnits (m : nat) (s : string) {struct s} : string :=
  match s with
  | EmptyString => EmptyString
  | String c s' =>
      match unitsOf c with
      | O => String c (takeUnits m s')
      | u =>
          if u <=? m then String c (takeUnits (m - u) s')
          else match m with
               | O => EmptyString
               | S _ => encode3 (highSurrogate (codePoint4 c s'))
               end
      end
  end.

(** [len] code units of [s] from code unit [from] on. *)
Definition unitSubstring (from len : nat) (s : string) : string :=
  takeUnits len (dropUnits from s).

(** [s.slice(start, end)] *)
Definition slice (s : string) (start end_ : value) : string :=
  let len := Z.of_nat (unitLength s) in
  let from := clampIndex len (sliceIndex 0%Z start) in
  let to := clampIndex len (sliceIndex len end_) in
  unitSubstring (Z.to_nat from) (Z.to_nat (to - from)) s.

(** ['\n'.repeat(line - 1)]: a [RangeError] on a negative count, nothing on
    [NaN]. *)
Definition blankLinesBefore (line : value) : outcome string :=
  let count :=
    match line with
    | VNum n => Some (n - 1)%Z
    | VNull | VBool false => Some (-1)%Z
    | VBool true => Some 0%Z
    | _ => None
    end in
  match count with
  | None => Ok EmptyString
  | Some c =>
      if (c <? 0)%Z then Throw (RangeError "Invalid count value")
      else Ok (Text.repeat Text.newline (Z.to_nat c))
  end.

Definition templateTag : string := "<template".

Section Transform.

Context {X : Externals} {M : MagicString}.

Record ParsedVue : Type := {
  vueAst : SfcAst;
  scriptAsts : list Program
}.

(** The text [parseVue] hands to the Vue parser. *)
Definition vueSource (code : string) : string :=
  if negb (Text.includes code templateTag)
  then (code ++ Text.newline ++ "<template></template>")%string
  else code.

(** The body of [scripts.map(...)] in [parseVue]. *)
Definition parseScript (code : string) (el : value) : outcome Program :=
  loc <- read el (Key "loc") ;;
  start <- read loc (Key "start") ;;
  line <- read start (Key "line") ;;
  blankLines <- blankLinesBefore line ;;
  children <- read el (Key "children") ;;
  first <- read children (Idx 0) ;;
  s <- (if nullish first then Ok VUndefined
        else range <- read first (Key "range") ;; read range (Idx 0)) ;;
  e <- (if nullish first then Ok VUndefined
        else range <- read first (Key "range") ;; read range (Idx 1)) ;;
  recast_parse (blankLines ++ slice code s e)%string.

Fixpoint mapM {A B : Type} (f : A -> outcome B) (xs : list A) : outcome (list B) :=
  match xs with
  | [] => Ok []
  | x :: xs' =>
      y <- f x ;;
      ys <- mapM f xs' ;;
      Ok (y :: ys)
  end.

(** [parseVue].  The non-null assertion on [templateBody] is erased at
    run time: with no template body, reading [parent] throws. *)
Definition parseVue (code : string) : outcome ParsedVue :=
  let code := vueSource code in
  ast <- vueParser_parse code ;;
  match templateBody ast with
  | None => Throw (TypeError "Cannot read properties of undefined (reading 'parent')")
  | Some body =>
      let scripts :=
        findAll (tb_parent body) [("type", VStr "VElement"); ("name", VStr "script")] in
      asts <- mapM (parseScript code) scripts ;;
      Ok {| vueAst := ast; scriptAsts := asts |}
  end.

(** [parseTs].  [transformTypescriptFile] passes it a second argument, the
    test of the file name against [/\.[jt]sx$/], which [parseTs] does not
    read. *)
Definition parseTs (code : string) : outcome Program := recast_parse code.

(** ** Plugins *)

(** The argument of a plugin's [transform] ([utils] is a constant).
    [scriptASTs] is [None] when the pass hands over [undefined]. *)
Record TransformContext : Type := {
  ctx_scriptASTs : option (list Program);
  ctx_sfcAST : value;
  ctx_filename : string;
  ctx_opts : value
}.

(** What a call of a plugin's [transform] leaves behind: the number it
    returns, and the state of the array of script ASTs (when it was handed
    one) and of the template tree it was handed, which it mutates in place. *)
Record Mutation : Type := {
  count : Z;
  scripts_after : list Program;
  sfc_after : value
}.

Record CodemodPlugin : Type := {
  plugin_name : string;
  plugin_transform : TransformContext -> outcome Mutation
}.

Definition Stats := list (string * Z).

Record TransformResult : Type := {
  code : string;
  stats : Stats
}.

(** [templateAst ?? null] *)
Definition orNull (v : value) : value := if nullish v then VNull else v.

(** The array a context holds, empty when it holds none. *)
Definition arrayOf (scriptASTs : option (list Program)) : list Program :=
  match scriptASTs with
  | Some asts => asts
  | None => []
  end.

(** The plugin loop of [transformVueFile]: the array of script ASTs and the
    template tree are shared by all the calls. *)
Fixpoint runVueCodemods (filename : string) (opts : value)
    (codemods : list CodemodPlugin)
    (scriptASTs : option (list Program)) (templateAst : value) (stats : Stats)
  : outcome (option (list Program) * value * Stats) :=
  match codemods with
  | [] => Ok (scriptASTs, templateAst, stats)
  | codemod :: rest =>
      m <- plugin_transform codemod
             {| ctx_scriptASTs := scriptASTs;
                ctx_sfcAST := orNull templateAst;
                ctx_filename := filename;
                ctx_opts := opts |} ;;
      runVueCodemods filename opts rest
        (option_map (fun _ => scripts_after m) scriptASTs)
        (if nullish templateAst then templateAst else sfc_after m)
        (stats ++ [(plugin_name codemod, count m)])
  end.

(** The plugin loop of [transformTypescriptFile]: every call gets a fresh
    one-element array around the same AST, so only what the plugin did to
    that AST stays. *)
Fixpoint runTsCodemods (filename : string) (opts : value)
    (codemods : list CodemodPlugin) (ast : Program) (stats : Stats)
  : outcome (Program * Stats) :=
  match codemods with
  | [] => Ok (ast, stats)
  | codemod :: rest =>
      m <- plugin_transform codemod
             {| ctx_scriptASTs := Some [ast];
                ctx_sfcAST := VNull;
                ctx_filename := filename;
                ctx_opts := opts |} ;;
      runTsCodemods filename opts rest
        (hd ast (scripts_after m))
        (stats ++ [(plugin_name codemod, count m)])
  end.

(** ** The transform *)

(** [for (const { start, end, node } of collapsedChanges) ms.update(...)] *)
Fixpoint updateAll (ms : buffer) (changes : list ChangedNode) : outcome buffer :=
  match changes with
  | [] => Ok ms
  | c :: rest =>
      ms' <- ms_update ms (cn_start c) (cn_end c) (stringify (cn_node c)) ;;
      updateAll ms' rest
  end.

(** The body of [if (diff) { ... }]. *)
Definition patch (ms : buffer) (originalTemplate templateAst : value)
    (diff : list change) : outcome buffer :=
  '(changed, rootNodeChanged) <- changedNodes originalTemplate templateAst false diff ;;
  if rootNodeChanged
  then '(s, e) <- rangeOf originalTemplate ;;
       ms_update ms s e (stringify templateAst)
  else updateAll ms (collapsedChanges changed).

(** The tree that is compared with the snapshot: [setParents] first, then
    the traversal that puts the printed scripts in. *)
Definition diffedTemplate (scriptASTs : option (list Program)) (templateAst : value)
  : outcome value :=
  templateAst <- setParents templateAst ;;
  rerenderScripts scriptASTs templateAst.

Definition templateDiff (originalTemplate templateAst : value) : list change :=
  deepDiff ignored originalTemplate templateAst.

(** The object [parseVue] returns has two properties, [vueAst] and
    [scriptAsts].  A destructuring reads properties by name, and a name the
    object does not have gives [undefined] (here [None]). *)
Definition sfcProperty (name : string) (parsed : ParsedVue) : option SfcAst :=
  if String.eqb name "vueAst" then Some (vueAst parsed) else None.

Definition scriptsProperty (name : string) (parsed : ParsedVue) : option (list Program) :=
  if String.eqb name "scriptAsts" then Some (scriptAsts parsed) else None.

(** [sfcAST.templateBody?.parent]: a [TypeError] when [sfcAST] is
    [undefined], [undefined] when there is no template body. *)
Definition templateOf (sfcAST : option SfcAst) : outcome value :=
  match sfcAST with
  | None => Throw (TypeError "Cannot read properties of undefined (reading 'templateBody')")
  | Some ast =>
      Ok (match templateBody ast with
          | Some body => tb_parent body
          | None => VUndefined
          end)
  end.

(** [transformVueFile] from the snapshot on (lines 57 to 181): the pass
    over the template tree and the script trees that the lines before it have
    put in [templateAst] and [scriptASTs]. *)
Definition templatePass (ms : buffer) (scriptASTs : option (list Program))
    (templateAst : value) (filename : string)
    (codemods : list CodemodPlugin) (opts : value) : outcome TransformResult :=
  let originalTemplate := templateAst in
  '(scriptASTs, templateAst, stats) <-
     runVueCodemods filename opts codemods scriptASTs templateAst [] ;;
  ms <- (if truthy templateAst && truthy originalTemplate
         then
           templateAst <- diffedTemplate scriptASTs templateAst ;;
           match templateDiff originalTemplate templateAst with
           | [] => Ok ms
           | diff => patch ms originalTemplate templateAst diff
           end
         else Ok ms) ;;
  Ok {| code := ms_toString ms; stats := stats |}.

(** [transformVueFile].  The destructuring names [scriptASTs] and [sfcAST],
    which the object [parseVue] returns does not have. *)
Definition transformVueFile (code filename : string)
    (codemods : list CodemodPlugin) (opts : value) : outcome TransformResult :=
  let workingCode := code in
  let ms := ms_new workingCode in
  parsed <- parseVue workingCode ;;
  let scriptASTs := scriptsProperty "scriptASTs" parsed in
  let sfcAST := sfcProperty "sfcAST" parsed in
  templateAst <- templateOf sfcAST ;;
  templatePass ms scriptASTs templateAst filename codemods opts.

Definition transformTypescriptFile (code filename : string)
    (codemods : list CodemodPlugin) (opts : value) : outcome TransformResult :=
  ast <- parseTs code ;;
  '(ast, stats) <- runTsCodemods filename opts codemods ast [] ;;
  Ok {| code := (recast_print (Some ast) ++ Text.newline)%string; stats := stats |}.

(** The default of the parameter [opts = {}]: the empty object stands in
    for [undefined], and for nothing else. *)
Definition optsOrDefault (opts : value) : value :=
  match opts with
  | VUndefined => VObj []
  | _ => opts
  end.

Definition transform (code filename : string)
    (plugins : list CodemodPlugin) (opts : value) : outcome TransformResult :=
  let opts := optsOrDefault opts in
  if Text.endsWith filename ".vue"
  then transformVueFile code filename plugins opts
  else transformTypescriptFile code filename plugins opts.

End Transform.

(** ** The owning node path, as the specification words it *)

(** Read from the end of the entry's path: the last segment goes; if the
    path now ends in ['startTag'], that segment goes too; if the segment
    before the last one is now ['key'], the last one goes.  [r] is the path
    reversed. *)
Definition dropStartTag (r : path) : path :=
  match r with
  | Key k :: r' => if String.eqb k "startTag" then r' else r
  | _ => r
  end.

Definition dropKeyPart (r : path) : path :=
  match r with
  | _ :: Key k :: r' => if String.eqb k "key" then Key k :: r' else r
  | _ => r
  end.

Definition owningNodePath (entryPath : path) : path :=
  rev (dropKeyPart (dropStartTag (tl (rev entryPath)))).

Definition entryPath (p : change) : path :=
  match change_path p with
  | Some l => l
  | None => []
  end.

(** ** Notions for the statements *)

Definition isProperPrefix (short long : path) : Prop :=
  List.length short < List.length long /\ firstn (List.length short) long = short.

(** The kind of a change entry as the specification counts it, Edit, New
    or Delete: an element added to or removed from an array is a New or a
    Delete entry. *)
Inductive entryKind : Type := EditEntry | NewEntry | DeleteEntry.

Fixpoint kindOfEntry (p : change) : entryKind :=
  match p with
  | DiffNew _ _ => NewEntry
  | DiffDeleted _ _ => DeleteEntry
  | DiffEdit _ _ _ => EditEntry
  | DiffArray _ _ item => kindOfEntry item
  end.

(** What deep-diff puts in an Array entry: a New or a Deleted item without
    a path. *)
Definition wellFormedEntry (p : change) : bool :=
  match p with
  | DiffArray _ _ (DiffNew None _) | DiffArray _ _ (DiffDeleted None _) => true
  | DiffArray _ _ _ => false
  | _ => true
  end.

(** The entries that come before the first one that sets the root-changed
    flag. *)
Fixpoint localEntries (diff : list change) : list change :=
  match diff with
  | [] => []
  | p :: rest => if touchesRoot p then [] else p :: localEntries rest
  end.

Section Survivors.

Variable T : Type.
Variable comparator : T -> T -> bool.

(** The survivors, in order: each is unmatched with all the earlier ones. *)
Inductive unmatched : list T -> Prop :=
| unmatched_nil : unmatched []
| unmatched_snoc (l : list T) (v : T) :
    unmatched l -> (forall seen, In seen l -> comparator v seen = false) ->
    unmatched (l ++ [v]).

End Survivors.

(** The fields of [ignoreProperties]: parent links, locations, ranges and
    the cached variable lists. *)
Definition bookkeeping (k : string) : bool := existsb (String.eqb k) ignoreProperties.

(** A tree without its bookkeeping fields, at every level. *)
Fixpoint content (v : value) : value :=
  match v with
  | VArr xs => VArr (map content xs)
  | VObj fs =>
      VObj ((fix each (fs : fields) : fields :=
               match fs with
               | [] => []
               | (k, x) :: fs' =>
                   if bookkeeping k then each fs' else (k, content x) :: each fs'
               end) fs)
  | _ => v
  end.

Fixpoint contentFields (fs : fields) : fields :=
  match fs with
  | [] => []
  | (k, x) :: fs' =>
      if bookkeeping k then contentFields fs' else (k, content x) :: contentFields fs'
  end.

(** ** The script hosts of a template *)


(** The first child of a node, [node.children[0]]. *)
Definition firstChild (node : value) : value :=
  member (member node (Key "children")) (Idx 0).




Section Notions.

Context {X : Externals}.

(** One pair per plugin, in order: its name and the number its call
    returned. *)
Definition statsOf (plugins : list CodemodPlugin) (ms : list Mutation) : Stats :=
  map (fun pm : CodemodPlugin * Mutation => (plugin_name (fst pm), count (snd pm)))
      (combine plugins ms).

(** The calls a pass over a script file makes, one after the other: each
    plugin is handed the file name, the options, [null] for the template and
    a fresh one-element array around the program as the calls before it left
    it.  [ms] is what the calls left behind, in order, and [final] is the
    program after the last one. *)
Fixpoint scriptCalls (filename : string) (opts : value) (plugins : list CodemodPlugin)
    (ast : Program) (ms : list Mutation) (final : Program) : Prop :=
  match plugins, ms with
  | [], [] => final = ast
  | p :: plugins', m :: ms' =>
      plugin_transform p
        {| ctx_scriptASTs := Some [ast]; ctx_sfcAST := VNull;
           ctx_filename := filename; ctx_opts := opts |} = Ok m /\
      scriptCalls filename opts plugins' (hd ast (scripts_after m)) ms' final
  | _, _ => False
  end.

(** The calls the plugin loop of a pass over a component makes: each plugin
    is handed the file name, the options, and the script trees and the
    template tree as the calls before it left them. *)
Fixpoint templateCalls (filename : string) (opts : value) (plugins : list CodemodPlugin)
    (scriptASTs : option (list Program)) (templateAst : value) (ms : list Mutation)
    (scriptsAfter : option (list Program)) (templateAfter : value) : Prop :=
  match plugins, ms with
  | [], [] => scriptsAfter = scriptASTs /\ templateAfter = templateAst
  | p :: plugins', m :: ms' =>
      plugin_transform p
        {| ctx_scriptASTs := scriptASTs; ctx_sfcAST := orNull templateAst;
           ctx_filename := filename; ctx_opts := opts |} = Ok m /\
      templateCalls filename opts plugins'
        (option_map (fun _ => scripts_after m) scriptASTs)
        (if nullish templateAst then templateAst else sfc_after m)
        ms' scriptsAfter templateAfter
  | _, _ => False
  end.

(** A plugin that performs no mutation: its call returns a number and
    leaves what it was handed as it was. *)
Definition performsNoMutation (p : CodemodPlugin) : Prop :=
  forall ctx, exists n,
    plugin_transform p ctx =
    Ok {| count := n; scripts_after := arrayOf (ctx_scriptASTs ctx);
          sfc_after := ctx_sfcAST ctx |}.

Variable scriptASTs : list Program.



End Notions.

(** ** Single changes, related paths and plugin contexts *)

(** What a change record holds while the root-changed flag is not set: the
    entry's owning path, which is not empty, the range of the snapshot's node
    at that path and the live tree's node at the same path. *)
Definition localRecord (orig tpl : value) (p : change) (c : ChangedNode) : Prop :=
  cn_path c = nodePath (change_path p) /\
  cn_path c <> [] /\
  rangeOf (get orig (cn_path c)) = Ok (cn_start c, cn_end c) /\
  cn_node c = get tpl (cn_path c).

(** Two paths are related when they are equal or one is a proper prefix of
    the other: the nodes they lead to are the same, or one contains the
    other. *)
Definition related (a b : path) : Prop :=
  a = b \/ isProperPrefix a b \/ isProperPrefix b a.

(** A value that is neither an array nor an object. *)
Definition isLeaf (v : value) : bool :=
  match v with
  | VArr _ | VObj _ => false
  | _ => true
  end.

(** The leaf that [p] leads to from [v], through own properties that the
    diff compares and through elements of arrays. *)
Fixpoint leafAt (v : value) (p : path) : option value :=
  match p with
  | [] => if isLeaf v then Some v else None
  | Key k :: rest =>
      match v with
      | VObj fs =>
          if ignored [] (Key k) then None
          else match lookup k fs with
               | Some child => leafAt child rest
               | None => None
               end
      | _ => None
      end
  | Idx i :: rest =>
      match v with
      | VArr xs =>
          match nth_error xs i with
          | Some child => leafAt child rest
          | None => None
          end
      | _ => None
      end
  end.

(** The tree after the assignment [object.p1. ... .pn = v], the way a plugin
    changes one property in place. *)
Fixpoint setAt (p : path) (v : value) (object : value) : value :=
  match p with
  | [] => v
  | k :: rest => assign object k (setAt rest v (member object k))
  end.

(** A path none of whose steps is a bookkeeping property. *)
Definition compared (p : path) : Prop :=
  Forall (fun k => bookkeeping (keyName k) = false) p.

(** The record of an entry once the root-changed flag is set: the entry's
    owning path and the live node there, with the range of the root. *)
Definition rootRecord (tpl s e : value) (p : change) : ChangedNode :=
  let path := nodePath (change_path p) in
  mkChangedNode path (if List.length path =? 0 then tpl else get tpl path) s e.

Section PluginNotions.

Context {X : Externals}.

(** The contexts a plugin is called with on a script file: the file name
    of the pass, its options (the empty object when [transform] was given
    none), no template, and an array that holds one script tree. *)
Definition scriptFileContext (filename : string) (opts : value)
    (ctx : TransformContext) : Prop :=
  ctx_filename ctx = filename /\ ctx_opts ctx = optsOrDefault opts /\
  ctx_sfcAST ctx = VNull /\ exists ast, ctx_scriptASTs ctx = Some [ast].

(** Two plugins with one name that do the same on the contexts [good]. *)
Definition agreeOn (good : TransformContext -> Prop) (a b : CodemodPlugin) : Prop :=
  plugin_name a = plugin_name b /\
  forall ctx, good ctx -> plugin_transform a ctx = plugin_transform b ctx.

End PluginNotions.

(** ** A small instance: one component, simple collaborators *)

Module Sample.

(** A text buffer with range replacements keyed to original offsets: the
    edits are kept sorted and disjoint, an edit that overlaps an earlier one
    is refused. *)
Record Edit : Type := { e_start : nat; e_end : nat; e_text : string }.

Record SimpleBuffer : Type := { sb_original : string; sb_edits : list Edit }.

Fixpoint insertEdit (e : Edit) (es : list Edit) : option (list Edit) :=
  match es with
  | [] => Some [e]
  | x :: es' =>
      if e_end e <=? e_start x then Some (e :: es)
      else if e_end x <=? e_start e then option_map (cons x) (insertEdit e es')
      else None
  end.

Definition sb_update (b : SimpleBuffer) (s e : value) (content : string)
  : outcome SimpleBuffer :=
  match s, e with
  | VNum s, VNum e =>
      if ((0 <=? s)%Z && (s <? e)%Z && (e <=? Z.of_nat (String.length (sb_original b)))%Z)%bool
      then match insertEdit {| e_start := Z.to_nat s; e_end := Z.to_nat e; e_text := content |}
                            (sb_edits b) with
           | Some es => Ok {| sb_original := sb_original b; sb_edits := es |}
           | None => Throw (Raised "Cannot split a chunk that has already been edited")
           end
      else Throw (Raised "Character is out of bounds")
  | _, _ => Throw (Raised "Character is out of bounds")
  end.

Fixpoint render (pos : nat) (es : list Edit) (s : string) : string :=
  match es with
  | [] => substring pos (String.length s - pos) s
  | e :: es' =>
      (substring pos (e_start e - pos) s ++ e_text e ++ render (e_end e) es' s)%string
  end.

Definition sb_toString (b : SimpleBuffer) : string :=
  render 0 (sb_edits b) (sb_original b).

#[export] Instance simpleBuffer : MagicString := {
  buffer := SimpleBuffer;
  ms_new := fun code => {| sb_original := code; sb_edits := [] |};
  ms_update := sb_update;
  ms_toString := sb_toString;
  ms_toString_new := ltac:(
    intros code; unfold sb_toString; simpl; rewrite Nat.sub_0_r;
    induction code as [|c code IH]; simpl; [reflexivity | now rewrite IH])
}.

(** Nodes as the Vue parser lays them out. *)
Definition rangeV (s e : Z) : value := VArr [VNum s; VNum e].

Definition locV (line : Z) : value :=
  VObj [("start", VObj [("line", VNum line); ("column", VNum 0)])].

Definition parsedText (s e : Z) (text : string) : value :=
  VObj [("type", VStr "VText"); ("range", rangeV s e); ("value", VStr text)].

Definition parsedElement (name : string) (s e line : Z)
    (children : list value) (endTag : value) : value :=
  VObj [("type", VStr "VElement"); ("range", rangeV s e); ("loc", locV line);
        ("name", VStr name); ("rawName", VStr name);
        ("startTag", VObj [("type", VStr "VStartTag"); ("attributes", VArr [])]);
        ("children", VArr children); ("endTag", endTag); ("variables", VArr [])].

Definition parsedFragment (s e : Z) (children : list value) : value :=
  VObj [("type", VStr "VDocumentFragment"); ("range", rangeV s e);
        ("children", VArr children)].

Definition endTagV : value := VObj [("type", VStr "VEndTag")].

(** The component
    [<template><p>hi</p></template>], a newline,
    [<script>], [let a] on a line of its own, [</script>]. *)
Definition source : string :=
  ("<template><p>hi</p></template>" ++ Text.newline ++
   "<script>" ++ Text.newline ++ "let a" ++ Text.newline ++ "</script>")%string.

Definition scriptBody : string := (Text.newline ++ "let a" ++ Text.newline)%string.

Definition topLevel : list value :=
  [ parsedElement "template" 0 30 1
      [ parsedElement "p" 10 19 1 [ parsedText 13 15 "hi" ] endTagV ] endTagV;
    parsedText 30 31 Text.newline;
    parsedElement "script" 31 55 2 [ parsedText 39 46 scriptBody ] endTagV ].

Definition document : value := parsedFragment 0 55 topLevel.

(** A component with a script and no template, [<script>], [let a],
    [</script>], and the tree of that text followed by the template
    [parseVue] appends. *)
Definition scriptOnly : string :=
  ("<script>" ++ Text.newline ++ "let a" ++ Text.newline ++ "</script>")%string.

Definition scriptOnlyDocument : value :=
  parsedFragment 0 46
    [ parsedElement "script" 0 24 1 [ parsedText 8 15 scriptBody ] endTagV;
      parsedText 24 25 Text.newline;
      parsedElement "template" 25 46 2 [] endTagV ].

(** A text with an HTML comment that is never closed: the comment runs to
    the end of the text, whatever is appended. *)
Definition openComment : string := "<!--".

(** The Vue parser on the texts used below: the two components above, and
    the unclosed comment followed by the template [parseVue] appends, which
    has no element and so no template body. *)
Definition vueParse (text : string) : outcome SfcAst :=
  if String.eqb text source
  then Ok {| templateBody := Some {| tb_parent := document |} |}
  else if String.eqb text (scriptOnly ++ Text.newline ++ "<template></template>")%string
  then Ok {| templateBody := Some {| tb_parent := scriptOnlyDocument |} |}
  else if String.eqb text (openComment ++ Text.newline ++ "<template></template>")%string
  then Ok {| templateBody := None |}
  else Throw (Raised "ParseError").

Definition isSpace (c : ascii) : bool :=
  Ascii.eqb c (ascii_of_nat 10) || Ascii.eqb c (ascii_of_nat 32).

Fixpoint trimStart (s : string) : string :=
  match s with
  | String c s' => if isSpace c then trimStart s' else s
  | EmptyString => EmptyString
  end.

Fixpoint trimEnd (s : string) : string :=
  match s with
  | String c s' =>
      match trimEnd s' with
      | EmptyString => if isSpace c then EmptyString else String c EmptyString
      | rest => String c rest
      end
  | EmptyString => EmptyString
  end.

(** A script AST is the text it prints as: the source without the white
    space around it. *)
Definition parseProgram (src : string) : outcome string := Ok (trimEnd (trimStart src)).

Definition printProgram (ast : option string) : string :=
  match ast with
  | Some text => text
  | None => EmptyString
  end.

(** The visitor keys of the template node types used here. *)
Definition keysOfNode (node : value) : list string :=
  match member node (Key "type") with
  | VStr t =>
      if String.eqb t "VDocumentFragment" then ["children"]
      else if String.eqb t "VElement" then ["startTag"; "children"; "endTag"]
      else if String.eqb t "VStartTag" then ["attributes"]
      else []
  | _ => []
  end.

Definition matches (wanted : fields) (node : value) : bool :=
  forallb (fun kv : string * value =>
             match snd kv with
             | VStr s => is_str (member node (Key (fst kv))) s
             | _ => false
             end) wanted.

Fixpoint findAllNodes (wanted : fields) (v : value) : list value :=
  match v with
  | VObj fs =>
      (if matches wanted v then [v] else []) ++
      (fix inFields (fs : fields) : list value :=
         match fs with
         | [] => []
         | (_, x) :: fs' => findAllNodes wanted x ++ inFields fs'
         end) fs
  | VArr xs =>
      (fix inItems (xs : list value) : list value :=
         match xs with
         | [] => []
         | x :: xs' => findAllNodes wanted x ++ inItems xs'
         end) xs
  | _ => []
  end.

(** Text and elements printed plainly. *)
Fixpoint printNode (v : value) : string :=
  match v with
  | VObj fs =>
      let inner :=
        (fix children (fs : fields) : string :=
           match fs with
           | [] => EmptyString
           | (k, VArr xs) :: fs' =>
               if String.eqb k "children"
               then (fix each (xs : list value) : string :=
                       match xs with
                       | [] => EmptyString
                       | x :: xs' => (printNode x ++ each xs')%string
                       end) xs
               else children fs'
           | (k, _) :: fs' =>
               if String.eqb k "children" then EmptyString else children fs'
           end) fs in
      match lookup "type" fs, lookup "name" fs, lookup "value" fs with
      | Some (VStr "VText"), _, Some (VStr text) => text
      | Some (VStr "VElement"), Some (VStr name), _ =>
          match lookup "endTag" fs with
          | Some VNull => ("<" ++ name ++ " />")%string
          | _ => ("<" ++ name ++ ">" ++ inner ++ "</" ++ name ++ ">")%string
          end
      | _, _, _ => inner
      end
  | _ => EmptyString
  end.

#[export] Instance externals : Externals := {
  Program := string;
  recast_parse := parseProgram;
  recast_print := printProgram;
  vueParser_parse := vueParse;
  visitorKeys := keysOfNode;
  findAll := fun root wanted => findAllNodes wanted root;
  stringify := printNode
}.

(** [object[path] = v] along a path (lodash [set]). *)
Fixpoint assignAt (p : path) (v : value) (object : value) : value :=
  match p with
  | [] => v
  | k :: rest => assign object k (assignAt rest v (member object k))
  end.

Definition pathToP : path := [Key "children"; Idx 0; Key "children"; Idx 0].

(** A plugin that changes nothing. *)
Definition idle : CodemodPlugin := {|
  plugin_name := "idle";
  plugin_transform := fun ctx =>
    Ok {| count := 0; scripts_after := arrayOf (ctx_scriptASTs ctx); sfc_after := ctx_sfcAST ctx |}
|}.

(** A plugin that throws. *)
Definition broken : CodemodPlugin := {|
  plugin_name := "broken";
  plugin_transform := fun _ => Throw (Raised "boom")
|}.

(** A plugin that rewrites the text of the paragraph and, on the paragraph
    itself, drops the end tag. *)
Definition selfClose : CodemodPlugin := {|
  plugin_name := "self-close";
  plugin_transform := fun ctx =>
    let t1 := assignAt (pathToP ++ [Key "children"; Idx 0; Key "value"]) (VStr "yo")
                (ctx_sfcAST ctx) in
    let t2 := assignAt (pathToP ++ [Key "endTag"]) VNull t1 in
    Ok {| count := 2; scripts_after := arrayOf (ctx_scriptASTs ctx); sfc_after := t2 |}
|}.

(** A text node made by a plugin: it has no range. *)
Definition note : value := VObj [("type", VStr "VText"); ("value", VStr "note")].

(** A plugin that appends a text node to the top-level children. *)
Definition appendNote : CodemodPlugin := {|
  plugin_name := "append-note";
  plugin_transform := fun ctx =>
    Ok {| count := 1; scripts_after := arrayOf (ctx_scriptASTs ctx);
          sfc_after := assignAt [Key "children"; Idx 3] note (ctx_sfcAST ctx) |}
|}.

(** A plugin that only refreshes bookkeeping: a new range and a parent
    link on the paragraph. *)
Definition refresh : CodemodPlugin := {|
  plugin_name := "refresh";
  plugin_transform := fun ctx =>
    let t1 := assignAt (pathToP ++ [Key "range"]) (rangeV 0 0) (ctx_sfcAST ctx) in
    let t2 := assignAt (pathToP ++ [Key "parent"]) (VStr "template") t1 in
    Ok {| count := 0; scripts_after := arrayOf (ctx_scriptASTs ctx); sfc_after := t2 |}
|}.

(** The document with that text node appended to its top-level children. *)
Definition documentWithNote : value :=
  assignAt [Key "children"; Idx 3] note document.


Definition pathToText : path := pathToP ++ [Key "children"; Idx 0].

(** The change records of the paragraph's text and of the paragraph. *)
Definition textRecord : ChangedNode :=
  mkChangedNode pathToText (parsedText 13 15 "yo") (VNum 13) (VNum 15).

Definition paragraphRecord : ChangedNode :=
  mkChangedNode pathToP
    (parsedElement "p" 10 19 1 [ parsedText 13 15 "yo" ] VNull) (VNum 10) (VNum 19).

(** Where the text of the script host is. *)
Definition hostValuePath : path :=
  [Key "children"; Idx 2; Key "children"; Idx 0; Key "value"].

(** The document as the plugin [refresh] leaves it. *)
Definition refreshedDocument : value :=
  assignAt (pathToP ++ [Key "parent"]) (VStr "template")
    (assignAt (pathToP ++ [Key "range"]) (rangeV 0 0) document).

(** What [parseVue] returns for [source]. *)
Definition parsedSource : ParsedVue (X := externals) :=
  @Build_ParsedVue externals {| templateBody := Some {| tb_parent := document |} |} ["let a"].

(** What [parseVue] returns for [scriptOnly]. *)
Definition parsedScriptOnly : ParsedVue (X := externals) :=
  @Build_ParsedVue externals
    {| templateBody := Some {| tb_parent := scriptOnlyDocument |} |} ["let a"].

(** A plugin that replaces the program by [let b]. *)
Definition rename : CodemodPlugin (X := externals) := {|
  plugin_name := "rename";
  plugin_transform := fun ctx =>
    Ok {| count := 1; scripts_after := map (fun _ => "let b") (arrayOf (ctx_scriptASTs ctx));
          sfc_after := ctx_sfcAST ctx |}
|}.

(** The sample document with a script that is not laid out as the printer
    lays it out: its text has two spaces before [let a]. *)
Definition looseScriptBody : string := (Text.newline ++ "  let a" ++ Text.newline)%string.

Definition looseSource : string :=
  ("<template><p>hi</p></template>" ++ Text.newline ++
   "<script>" ++ Text.newline ++ "  let a" ++ Text.newline ++ "</script>")%string.

Definition looseDocument : value :=
  parsedFragment 0 57
    [ parsedElement "template" 0 30 1
        [ parsedElement "p" 10 19 1 [ parsedText 13 15 "hi" ] endTagV ] endTagV;
      parsedText 30 31 Text.newline;
      parsedElement "script" 31 57 2 [ parsedText 39 48 looseScriptBody ] endTagV ].

(** A text that starts with the euro sign (the bytes 226, 130, 172: one
    code unit) and goes on with two letters. *)
Definition priced : string :=
  String (ascii_of_nat 226) (String (ascii_of_nat 130) (String (ascii_of_nat 172) "xy")).

(** A plugin that rewrites the text of the paragraph and nothing else. *)
Definition retext : CodemodPlugin (X := externals) := {|
  plugin_name := "retext";
  plugin_transform := fun ctx =>
    Ok {| count := 1; scripts_after := arrayOf (ctx_scriptASTs ctx);
          sfc_after := setAt (pathToText ++ [Key "value"]) (VStr "yo") (ctx_sfcAST ctx) |}
|}.

(** A plugin that changes nothing on a script file and throws when it is
    handed a template. *)
Definition scriptsOnly : CodemodPlugin (X := externals) := {|
  plugin_name := "idle";
  plugin_transform := fun ctx =>
    if nullish (ctx_sfcAST ctx)
    then Ok {| count := 0; scripts_after := arrayOf (ctx_scriptASTs ctx); sfc_after := ctx_sfcAST ctx |}
    else Throw (Raised "no template expected")
|}.

End Sample.

(** * Proofs *)

(** ** Outcomes, text and paths *)

Lemma bind_Ok_inv {A B : Type} (m : outcome A) (k : A -> outcome B) (b : B) :
  bind m k = Ok b -> exists a, m = Ok a /\ k a = Ok b.
Proof.
  destruct m as [a|e]; simpl; intros H; [exists a; auto | discriminate].
Qed.

Lemma seg_eqb_spec (a b : seg) : reflect (a = b) (seg_eqb a b).
Proof.
  destruct a as [x|i], b as [y|j]; simpl; try (constructor; discriminate).
  - destruct (String.eqb_spec x y); constructor; congruence.
  - destruct (Nat.eqb_spec i j); constructor; congruence.
Qed.

Lemma isEqual_spec (a b : path) : reflect (a = b) (isEqual a b).
Proof.
  revert b; induction a as [|x a IH]; intros [|y b]; simpl;
    try (constructor; congruence).
  destruct (seg_eqb_spec x y); simpl.
  - destruct (IH b); constructor; congruence.
  - constructor; congruence.
Qed.

Module TextFacts.
Import Text.
Local Open Scope string_scope.

Lemma length_append (a b : string) :
  String.length (a ++ b) = String.length a + String.length b.
Proof. induction a as [|c a IH]; simpl; [reflexivity | now rewrite IH]. Qed.

Lemma append_nil_r (a : string) : a ++ "" = a.
Proof. induction a as [|c a IH]; simpl; [reflexivity | now rewrite IH]. Qed.

Lemma append_assoc (a b c : string) : (a ++ b) ++ c = a ++ (b ++ c).
Proof. induction a as [|x a IH]; simpl; [reflexivity | now rewrite IH]. Qed.

Lemma substring_all (s : string) : substring 0 (String.length s) s = s.
Proof. induction s as [|c s IH]; simpl; [reflexivity | now rewrite IH]. Qed.

Lemma substring_skip (a b : string) (m : nat) :
  substring (String.length a) m (a ++ b) = substring 0 m b.
Proof. induction a as [|c a IH]; simpl; [reflexivity | exact IH]. Qed.

Lemma endsWith_append (a p : string) : endsWith (a ++ p) p = true.
Proof.
  unfold endsWith. rewrite length_append.
  apply andb_true_iff; split.
  - apply Nat.leb_le; lia.
  - replace (String.length a + String.length p - String.length p)
      with (String.length a) by lia.
    rewrite substring_skip, substring_all. apply String.eqb_refl.
Qed.

End TextFacts.

(** *** Arrays read from the end *)

Lemma pop_rev (A : Type) (r : list A) : Arr.pop (rev r) = rev (tl r).
Proof.
  destruct r as [|x r]; simpl; [reflexivity|].
  unfold Arr.pop. apply removelast_last.
Qed.

Lemma at_neg_rev (A : Type) (k : nat) (r : list A) :
  Arr.at_neg (S k) (rev r) = nth_error r k.
Proof.
  unfold Arr.at_neg. rewrite length_rev.
  destruct (Nat.ltb_spec (List.length r) (S k)) as [Hlt|Hge].
  - symmetry. apply nth_error_None. lia.
  - rewrite nth_error_rev.
    destruct (Nat.ltb_spec (List.length r - S k) (List.length r)) as [_|Hbad]; [|lia].
    f_equal. lia.
Qed.

Lemma is_key_head (r : path) (name : string) :
  is_key (nth_error r 0) name =
  match r with
  | Key k :: _ => String.eqb k name
  | _ => false
  end.
Proof. destruct r as [|[k|i] r]; reflexivity. Qed.

Lemma is_key_second (r : path) (name : string) :
  is_key (nth_error r 1) name =
  match r with
  | _ :: Key k :: _ => String.eqb k name
  | _ => false
  end.
Proof. destruct r as [|x [|[k|i] r]]; reflexivity. Qed.

Lemma nodePath_rev (r : path) :
  nodePath (Some (rev r)) = rev (dropKeyPart (dropStartTag (tl r))).
Proof.
  unfold nodePath. rewrite pop_rev.
  rewrite at_neg_rev, is_key_head.
  assert (Hstart :
    (if match tl r with Key k :: _ => String.eqb k "startTag" | _ => false end
     then Arr.pop (rev (tl r)) else rev (tl r)) = rev (dropStartTag (tl r))).
  { destruct (tl r) as [|[k|i] r'] eqn:Er; try reflexivity.
    unfold dropStartTag. destruct (String.eqb k "startTag"); [|reflexivity].
    now rewrite pop_rev. }
  rewrite Hstart. clear Hstart.
  set (r2 := dropStartTag (tl r)).
  rewrite at_neg_rev, is_key_second.
  destruct r2 as [|x [|[k|i] r']]; try reflexivity.
  unfold dropKeyPart. destruct (String.eqb k "key"); [|reflexivity].
  now rewrite pop_rev.
Qed.

Lemma dropStartTag_length (r : path) :
  List.length r - 1 <= List.length (dropStartTag r) <= List.length r.
Proof.
  destruct r as [|[k|i] r]; simpl; try lia.
  destruct (String.eqb k "startTag"); simpl; lia.
Qed.

Lemma dropKeyPart_length (r : path) :
  List.length r - 1 <= List.length (dropKeyPart r) <= List.length r.
Proof.
  destruct r as [|x [|[k|i] r]]; simpl; try lia.
  destruct (String.eqb k "key"); simpl; lia.
Qed.

Lemma dropStartTag_suffix (r : path) : exists pre, r = pre ++ dropStartTag r.
Proof.
  destruct r as [|[k|i] r]; simpl; try (exists []; reflexivity).
  destruct (String.eqb k "startTag"); [exists [Key k] | exists []]; reflexivity.
Qed.

Lemma dropKeyPart_suffix (r : path) : exists pre, r = pre ++ dropKeyPart r.
Proof.
  destruct r as [|x [|[k|i] r]]; simpl; try (exists []; reflexivity).
  destruct (String.eqb k "key"); [exists [x] | exists []]; reflexivity.
Qed.

Example nodePath_of_attributes :
  nodePath (Some [Key "children"; Idx 0; Key "startTag"; Key "attributes"])
  = [Key "children"; Idx 0].
Proof. reflexivity. Qed.

Example nodePath_of_directive_name :
  nodePath (Some [Key "attributes"; Idx 1; Key "key"; Key "name"; Key "name"])
  = [Key "attributes"; Idx 1; Key "key"].
Proof. reflexivity. Qed.

Example nodePath_at_root : nodePath None = [] /\ nodePath (Some [Key "type"]) = [].
Proof. split; reflexivity. Qed.

(** C6. For every change entry, the owning node path computed by the
    callback of [transformVueFile] is the entry's path with its last segment
    removed, then one more segment removed when the path now ends in
    ['startTag'], then one more removed when the second-to-last segment is
    ['key']; nothing else is corrected: the result is the entry's path
    shortened by one, two or three segments at its end (an empty path stays
    empty). *)
Theorem nodePath_is_owningNodePath (p : change) :
  nodePath (change_path p) = owningNodePath (entryPath p) /\
  exists dropped : nat,
    dropped <= 3 /\
    (entryPath p <> [] -> 1 <= dropped) /\
    nodePath (change_path p) = firstn (List.length (entryPath p) - dropped) (entryPath p).
Proof.
  assert (Hpath : nodePath (change_path p) = nodePath (Some (entryPath p))).
  { unfold entryPath. destruct (change_path p) as [l|]; reflexivity. }
  rewrite Hpath. clear Hpath.
  set (l := entryPath p).
  assert (Heq : nodePath (Some l) = owningNodePath l).
  { unfold owningNodePath. rewrite <- nodePath_rev. now rewrite rev_involutive. }
  split; [exact Heq|].
  rewrite Heq. unfold owningNodePath.
  set (r := rev l).
  destruct (dropStartTag_suffix (tl r)) as [pre1 H1].
  destruct (dropKeyPart_suffix (dropStartTag (tl r))) as [pre2 H2].
  pose proof (dropStartTag_length (tl r)) as L1.
  pose proof (dropKeyPart_length (dropStartTag (tl r))) as L2.
  set (out := dropKeyPart (dropStartTag (tl r))) in *.
  assert (Hr : exists pre, r = pre ++ out /\ List.length pre <= 3 /\ (r <> [] -> 1 <= List.length pre)).
  { destruct r as [|x r']; simpl in *.
    - exists []. subst out. simpl. repeat split; [lia | congruence].
    - exists (x :: pre1 ++ pre2). simpl. rewrite <- app_assoc, <- H2, <- H1.
      repeat split.
      + apply (f_equal (@List.length seg)) in H1, H2.
        rewrite length_app in H1, H2. rewrite length_app. lia.
      + lia. }
  destruct Hr as [pre [Hr [Hlen Hne]]].
  exists (List.length pre). repeat split.
  - exact Hlen.
  - intros Hl. apply Hne. intros Hnil. apply Hl.
    apply (f_equal (@rev seg)) in Hnil. subst r. now rewrite rev_involutive in Hnil.
  - assert (Hl : l = rev out ++ rev pre).
    { rewrite <- rev_app_distr, <- Hr. subst r. now rewrite rev_involutive. }
    clearbody out r l. subst l.
    rewrite length_app, !length_rev.
    replace (List.length out + List.length pre - List.length pre)
      with (List.length (rev out) + 0) by (rewrite length_rev; lia).
    rewrite firstn_app_2. simpl. now rewrite app_nil_r.
Qed.

(** ** The root-changed flag *)

Lemma changedNodes_flag (orig tpl : value) (diff : list change) :
  forall (flag : bool) (changed : list ChangedNode) (flag' : bool),
    changedNodes orig tpl flag diff = Ok (changed, flag') ->
    flag' = flag || existsb touchesRoot diff.
Proof.
  induction diff as [|p rest IH]; simpl; intros flag changed flag' H.
  - inversion H; subst. now rewrite orb_false_r.
  - apply bind_Ok_inv in H. destruct H as [[c f1] [Hc H]].
    apply bind_Ok_inv in H. destruct H as [[cs f2] [Hrest H]].
    inversion H; subst. clear H.
    apply IH in Hrest. subst flag'.
    unfold changedNode in Hc.
    apply bind_Ok_inv in Hc. destruct Hc as [[s e] [_ Hc]].
    inversion Hc; subst. clear Hc.
    destruct (touchesRoot p), flag; reflexivity.
Qed.

(** The reduction returns its records as soon as every range it reads is
    there: the root's, once the flag is set, and otherwise the range of the
    snapshot node at each owning path. *)
Lemma changedNodes_returns (orig tpl : value) (diff : list change) :
  (exists r, rangeOf orig = Ok r) ->
  (forall p, In p diff -> exists r, rangeOf (get orig (nodePath (change_path p))) = Ok r) ->
  forall flag, exists changed flag', changedNodes orig tpl flag diff = Ok (changed, flag').
Proof.
  intros [r0 Hroot]. induction diff as [|p rest IH]; intros Hall flag; simpl.
  - now exists [], flag.
  - destruct (Hall p (or_introl eq_refl)) as [rp Hp].
    unfold changedNode.
    set (flag1 := if touchesRoot p then true else flag).
    assert (Hr : exists r, rangeOf (if flag1 then orig else get orig (nodePath (change_path p))) = Ok r).
    { destruct flag1; [now exists r0 | now exists rp]. }
    destruct Hr as [[s e] Hr]. rewrite Hr. simpl.
    destruct (IH (fun q Hq => Hall q (or_intror Hq)) flag1) as [cs [f2 Hrest]].
    rewrite Hrest. simpl. eauto.
Qed.

Lemma touchesRoot_spec (p : change) :
  touchesRoot p = true <->
  List.length (nodePath (change_path p)) <= 3 /\
  (change_kind p = N \/ change_kind p = D \/ change_kind p = A).
Proof.
  unfold touchesRoot. rewrite andb_true_iff, Nat.leb_le.
  destruct (change_kind p); simpl; intuition congruence.
Qed.

(** ** Collapsing the change records *)

Lemma isEqual_refl (a : path) : isEqual a a = true.
Proof. destruct (isEqual_spec a a); congruence. Qed.

Lemma samePathOrAncestor_sym (a b : ChangedNode) :
  samePathOrAncestor a b = samePathOrAncestor b a.
Proof.
  unfold samePathOrAncestor.
  rewrite (Nat.eqb_sym (List.length (cn_path b))).
  destruct (Nat.eqb_spec (List.length (cn_path a)) (List.length (cn_path b))) as [He|Hne].
  - destruct (isEqual_spec (cn_path a) (cn_path b)), (isEqual_spec (cn_path b) (cn_path a));
      congruence.
  - destruct (Nat.ltb_spec (List.length (cn_path a)) (List.length (cn_path b))),
             (Nat.ltb_spec (List.length (cn_path b)) (List.length (cn_path a)));
      try reflexivity; lia.
Qed.

Lemma samePathOrAncestor_prefix (a b : ChangedNode) :
  isProperPrefix (cn_path b) (cn_path a) -> samePathOrAncestor b a = true.
Proof.
  intros [Hlt Hpre]. unfold samePathOrAncestor.
  destruct (Nat.eqb_spec (List.length (cn_path b)) (List.length (cn_path a))); [lia|].
  destruct (Nat.ltb_spec (List.length (cn_path b)) (List.length (cn_path a))); [|lia].
  unfold Arr.slice0. rewrite Hpre. apply isEqual_refl.
Qed.

Lemma samePathOrAncestor_same (a b : ChangedNode) :
  cn_path a = cn_path b -> samePathOrAncestor a b = true.
Proof.
  intros H. unfold samePathOrAncestor. rewrite H, Nat.eqb_refl. apply isEqual_refl.
Qed.

Section UniqFacts.

Variable T : Type.
Variable comparator : T -> T -> bool.

Lemma baseUniq_extends (array result : list T) :
  exists more, baseUniq comparator array result = result ++ more.
Proof.
  revert result. induction array as [|v rest IH]; intros result; simpl.
  - exists []. now rewrite app_nil_r.
  - destruct (arrayIncludesWith result v comparator).
    + apply IH.
    + destruct (IH (result ++ [v])) as [more Hm]. exists (v :: more).
      rewrite Hm, <- app_assoc. reflexivity.
Qed.

(** A value matched by the comparator with a value already kept never
    enters the result. *)
Lemma baseUniq_excludes (array result : list T) (b kept : T) :
  In kept result -> comparator b kept = true -> ~ In b result ->
  ~ In b (baseUniq comparator array result).
Proof.
  revert result. induction array as [|v rest IH]; intros result Hk Hc Hb; simpl.
  - exact Hb.
  - destruct (arrayIncludesWith result v comparator) eqn:Hinc.
    + now apply IH.
    + apply IH; [apply in_or_app; now left | exact Hc |].
      intros Hin. apply in_app_or in Hin. destruct Hin as [Hin|[Hin|[]]]; [now apply Hb|].
      subst v. unfold arrayIncludesWith in Hinc.
      assert (Hex : existsb (fun seen => comparator b seen) result = true).
      { apply existsb_exists. now exists kept. }
      congruence.
Qed.

Lemma baseUniq_unmatched (array result : list T) :
  unmatched comparator result -> unmatched comparator (baseUniq comparator array result).
Proof.
  revert result. induction array as [|v rest IH]; intros result Hres; simpl.
  - exact Hres.
  - destruct (arrayIncludesWith result v comparator) eqn:Hinc.
    + now apply IH.
    + apply IH. constructor; [exact Hres|].
      intros seen Hin. unfold arrayIncludesWith in Hinc.
      destruct (comparator v seen) eqn:Hc; [|reflexivity].
      assert (Hex : existsb (fun seen => comparator v seen) result = true).
      { apply existsb_exists. now exists seen. }
      congruence.
Qed.

Lemma unmatched_pairs (l : list T) :
  unmatched comparator l ->
  forall i j x y, i < j -> nth_error l i = Some x -> nth_error l j = Some y ->
                  comparator y x = false.
Proof.
  induction 1 as [|l v Hl IH Hv]; intros i j x y Hij Hx Hy.
  - destruct i; discriminate.
  - assert (Hj : j < List.length (l ++ [v])) by (apply nth_error_Some; congruence).
    rewrite length_app in Hj. simpl in Hj.
    assert (Hi : i < List.length l) by lia.
    rewrite nth_error_app1 in Hx by exact Hi.
    destruct (Nat.eq_dec j (List.length l)) as [->|Hne].
    + rewrite nth_error_app2 in Hy by lia.
      rewrite Nat.sub_diag in Hy. simpl in Hy.
      inversion Hy; subst. apply Hv. eapply nth_error_In; eauto.
    + rewrite nth_error_app1 in Hy by lia. exact (IH i j x y Hij Hx Hy).
Qed.

End UniqFacts.

(** What does hold of the collapse: no two surviving records have paths of
    which one is a prefix of the other, or equal paths. *)
Lemma collapsedChanges_unrelated (changed : list ChangedNode) (i j : nat) (x y : ChangedNode) :
  i <> j ->
  nth_error (collapsedChanges changed) i = Some x ->
  nth_error (collapsedChanges changed) j = Some y ->
  cn_path x <> cn_path y /\
  ~ isProperPrefix (cn_path x) (cn_path y) /\
  ~ isProperPrefix (cn_path y) (cn_path x).
Proof.
  intros Hij Hx Hy.
  assert (Hu : unmatched samePathOrAncestor (collapsedChanges changed)).
  { apply baseUniq_unmatched. constructor. }
  assert (Hxy : samePathOrAncestor x y = false).
  { destruct (Nat.lt_ge_cases i j) as [Hlt|Hge].
    - rewrite samePathOrAncestor_sym. eapply unmatched_pairs; eauto.
    - eapply unmatched_pairs with (i := j) (j := i); eauto. lia. }
  repeat split.
  - intros He. apply samePathOrAncestor_same in He. congruence.
  - intros Hp. apply samePathOrAncestor_prefix in Hp. congruence.
  - intros Hp. apply samePathOrAncestor_prefix in Hp.
    rewrite samePathOrAncestor_sym in Hp. congruence.
Qed.

(** C3, what the code does instead. The collapse keeps the record that
    comes first in diff order: when a record for a deeper node precedes the
    records of its ancestors, the deeper record survives and every record
    whose path is a proper prefix of its path is dropped, so the ancestor's
    span is not patched. *)
Theorem collapse_keeps_earlier_descendant
    (a b : ChangedNode) (rest : list ChangedNode) :
  isProperPrefix (cn_path b) (cn_path a) ->
  hd_error (collapsedChanges (a :: rest)) = Some a /\
  ~ In b (collapsedChanges (a :: rest)).
Proof.
  intros Hpre. unfold collapsedChanges, uniqWith. simpl.
  split.
  - destruct (baseUniq_extends samePathOrAncestor rest [a]) as [more Hm].
    rewrite Hm. reflexivity.
  - apply baseUniq_excludes with (kept := a).
    + now left.
    + now apply samePathOrAncestor_prefix.
    + intros [Hab|[]]. subst b. destruct Hpre as [Hlt _]. lia.
Qed.

(** ** The plugin loop *)

Section PluginLoop.

Context {X : Externals} {M : MagicString}.

Lemma runTsCodemods_calls (filename : string) (opts : value) (codemods : list CodemodPlugin) :
  forall ast st final st',
    runTsCodemods filename opts codemods ast st = Ok (final, st') <->
    exists ms, scriptCalls filename opts codemods ast ms final /\
               st' = st ++ statsOf codemods ms.
Proof.
  induction codemods as [|p rest IH]; intros ast st final st'.
  - simpl. split.
    + intros H. inversion H; subst. exists []. split; [reflexivity | now rewrite app_nil_r].
    + intros [[|m ms] [Hcalls Hst]]; [|destruct Hcalls].
      simpl in Hcalls, Hst. subst. now rewrite app_nil_r.
  - cbn [runTsCodemods]. split.
    + intros H. apply bind_Ok_inv in H. destruct H as [m [Hm H]].
      apply IH in H. destruct H as [ms [Hcalls Hst]].
      exists (m :: ms). split; [split; assumption|].
      rewrite Hst, <- app_assoc. reflexivity.
    + intros [[|m ms] [Hcalls Hst]]; [destruct Hcalls|].
      destruct Hcalls as [Hm Hcalls]. rewrite Hm. cbn [bind].
      apply IH. exists ms. split; [exact Hcalls|].
      rewrite Hst, <- app_assoc. reflexivity.
Qed.

Lemma runVueCodemods_calls (filename : string) (opts : value) (codemods : list CodemodPlugin) :
  forall scripts tpl st scripts' tpl' st',
    runVueCodemods filename opts codemods scripts tpl st = Ok (scripts', tpl', st') <->
    exists ms, templateCalls filename opts codemods scripts tpl ms scripts' tpl' /\
               st' = st ++ statsOf codemods ms.
Proof.
  induction codemods as [|p rest IH]; intros scripts tpl st scripts' tpl' st'.
  - simpl. split.
    + intros H. inversion H; subst. exists []. split; [split; reflexivity | now rewrite app_nil_r].
    + intros [[|m ms] [Hcalls Hst]]; [|destruct Hcalls].
      destruct Hcalls as [-> ->]. simpl in Hst. subst. now rewrite app_nil_r.
  - cbn [runVueCodemods]. split.
    + intros H. apply bind_Ok_inv in H. destruct H as [m [Hm H]].
      apply IH in H. destruct H as [ms [Hcalls Hst]].
      exists (m :: ms). split; [split; assumption|].
      rewrite Hst, <- app_assoc. reflexivity.
    + intros [[|m ms] [Hcalls Hst]]; [destruct Hcalls|].
      destruct Hcalls as [Hm Hcalls]. rewrite Hm. cbn [bind].
      apply IH. exists ms. split; [exact Hcalls|].
      rewrite Hst, <- app_assoc. reflexivity.
Qed.

Lemma scriptCalls_length (filename : string) (opts : value) (plugins : list CodemodPlugin) :
  forall ast ms final,
    scriptCalls filename opts plugins ast ms final -> List.length ms = List.length plugins.
Proof.
  induction plugins as [|p rest IH]; intros ast [|m ms] final H; try destruct H; [reflexivity|].
  simpl. f_equal. eapply IH; eauto.
Qed.

Lemma templateCalls_length (filename : string) (opts : value) (plugins : list CodemodPlugin) :
  forall scripts tpl ms scripts' tpl',
    templateCalls filename opts plugins scripts tpl ms scripts' tpl' ->
    List.length ms = List.length plugins.
Proof.
  induction plugins as [|p rest IH]; intros scripts tpl [|m ms] scripts' tpl' H;
    try destruct H; [reflexivity|].
  simpl. f_equal. eapply IH; eauto.
Qed.

Lemma statsOf_shape (plugins : list CodemodPlugin) :
  forall ms, List.length ms = List.length plugins ->
    List.length (statsOf plugins ms) = List.length plugins /\
    map fst (statsOf plugins ms) = map plugin_name plugins /\
    map snd (statsOf plugins ms) = map count ms.
Proof.
  unfold statsOf. induction plugins as [|p rest IH]; intros [|m ms] Hlen; try discriminate.
  - repeat split.
  - simpl in Hlen. injection Hlen as Hlen. destruct (IH ms Hlen) as [H1 [H2 H3]].
    simpl. rewrite H1, H2, H3. repeat split.
Qed.

(** The names the destructuring reads are not properties of what
    [parseVue] returns: once the parse has returned, the pass over a component
    throws before it reaches a plugin. *)
Lemma transformVueFile_throws (src filename : string) (plugins : list CodemodPlugin)
    (opts : value) (parsed : ParsedVue) :
  parseVue src = Ok parsed ->
  transformVueFile src filename plugins opts =
  Throw (TypeError "Cannot read properties of undefined (reading 'templateBody')").
Proof.
  intros Hparse. unfold transformVueFile. rewrite Hparse. reflexivity.
Qed.

Lemma transformVueFile_never_returns (src filename : string) (plugins : list CodemodPlugin)
    (opts : value) (r : TransformResult) :
  transformVueFile src filename plugins opts <> Ok r.
Proof.
  unfold transformVueFile. destruct (parseVue src) as [parsed|e]; discriminate.
Qed.

Lemma transformTypescriptFile_calls (src filename : string) (plugins : list CodemodPlugin)
    (opts : value) (r : TransformResult) :
  transformTypescriptFile src filename plugins opts = Ok r <->
  exists ast ms final,
    parseTs src = Ok ast /\
    scriptCalls filename opts plugins ast ms final /\
    r = {| code := (recast_print (Some final) ++ Text.newline)%string;
           stats := statsOf plugins ms |}.
Proof.
  unfold transformTypescriptFile. split.
  - intros H. apply bind_Ok_inv in H. destruct H as [ast [Hp H]].
    apply bind_Ok_inv in H. destruct H as [[final st] [Hrun H]].
    apply runTsCodemods_calls in Hrun. destruct Hrun as [ms [Hcalls Hst]].
    inversion H; subst. exists ast, ms, final. repeat split; assumption.
  - intros [ast [ms [final [Hp [Hcalls Hr]]]]]. rewrite Hp. cbn [bind].
    assert (Hrun : runTsCodemods filename opts plugins ast [] = Ok (final, statsOf plugins ms)).
    { apply runTsCodemods_calls. exists ms. split; [exact Hcalls | reflexivity]. }
    rewrite Hrun. subst r. reflexivity.
Qed.

Lemma transform_calls (src filename : string) (plugins : list CodemodPlugin)
    (opts : value) (r : TransformResult) :
  transform src filename plugins opts = Ok r ->
  exists ast ms final,
    parseTs src = Ok ast /\
    scriptCalls filename (optsOrDefault opts) plugins ast ms final /\
    r = {| code := (recast_print (Some final) ++ Text.newline)%string;
           stats := statsOf plugins ms |}.
Proof.
  unfold transform. destruct (Text.endsWith filename ".vue").
  - intros H. now apply transformVueFile_never_returns in H.
  - apply transformTypescriptFile_calls.
Qed.

(** C7. For every plugin list, the stats returned by [transform] hold
    exactly one (name, count) pair per plugin, in the order the plugins are
    invoked: the name is the plugin's name, the count is the number that
    plugin's [transform] call returned.  The calls are the ones the pass
    made: each with the file name, the options ([{}] when none were given)
    and the program as the calls before it left it.  The second part is the
    same for the loop over the plugins of a pass over a component, lines 59
    to 69, from the state it starts in. *)
Theorem transform_stats_per_plugin (src filename : string)
    (plugins : list CodemodPlugin) (opts : value) :
  (forall r, transform src filename plugins opts = Ok r ->
     exists ast ms final,
       parseTs src = Ok ast /\
       scriptCalls filename (optsOrDefault opts) plugins ast ms final /\
       stats r = statsOf plugins ms /\
       List.length (stats r) = List.length plugins /\
       map fst (stats r) = map plugin_name plugins /\
       map snd (stats r) = map count ms) /\
  (forall scriptASTs templateAst scriptsAfter templateAfter st,
     runVueCodemods filename opts plugins scriptASTs templateAst [] =
       Ok (scriptsAfter, templateAfter, st) ->
     exists ms,
       templateCalls filename opts plugins scriptASTs templateAst ms scriptsAfter templateAfter /\
       st = statsOf plugins ms /\
       List.length st = List.length plugins /\
       map fst st = map plugin_name plugins /\
       map snd st = map count ms).
Proof.
  split.
  - intros r H. apply transform_calls in H.
    destruct H as [ast [ms [final [Hp [Hcalls ->]]]]].
    exists ast, ms, final. cbn [stats].
    split; [exact Hp|]. split; [exact Hcalls|]. split; [reflexivity|].
    apply statsOf_shape. eapply scriptCalls_length; eauto.
  - intros scriptASTs templateAst scriptsAfter templateAfter st H.
    apply runVueCodemods_calls in H. destruct H as [ms [Hcalls Hst]].
    simpl in Hst. subst st. exists ms.
    split; [exact Hcalls|]. split; [reflexivity|].
    apply statsOf_shape. eapply templateCalls_length; eauto.
Qed.

Lemma runVueCodemods_app (filename : string) (opts : value)
    (before after : list CodemodPlugin) :
  forall scripts tpl st,
    runVueCodemods filename opts (before ++ after) scripts tpl st =
    ('(scripts', tpl', st') <- runVueCodemods filename opts before scripts tpl st ;;
     runVueCodemods filename opts after scripts' tpl' st').
Proof.
  induction before as [|p rest IH]; simpl; intros scripts tpl st; [reflexivity|].
  destruct (plugin_transform p _) as [m|e]; simpl; [apply IH | reflexivity].
Qed.

Lemma runTsCodemods_app (filename : string) (opts : value)
    (before after : list CodemodPlugin) :
  forall ast st,
    runTsCodemods filename opts (before ++ after) ast st =
    ('(ast', st') <- runTsCodemods filename opts before ast st ;;
     runTsCodemods filename opts after ast' st').
Proof.
  induction before as [|p rest IH]; simpl; intros ast st; [reflexivity|].
  destruct (plugin_transform p _) as [m|e]; simpl; [apply IH | reflexivity].
Qed.

(** C8. If a plugin's [transform] raises, the exception is the outcome of
    [transform] itself: the plugins after it are not run and no result, text
    or stats, is returned.  On a script file: the plugins [before] were
    called, [p] raises [e] on the program they left.  The second part is the
    same for the pass over a component from line 57 on, whose loop over the
    plugins is at lines 59 to 69: [p] raises on the trees the plugins
    [before] left. *)
Theorem plugin_exception_propagates (src filename : string)
    (before after : list CodemodPlugin) (p : CodemodPlugin) (opts : value) (e : exn) :
  (forall ast ms final,
     Text.endsWith filename ".vue" = false ->
     parseTs src = Ok ast ->
     scriptCalls filename (optsOrDefault opts) before ast ms final ->
     plugin_transform p
       {| ctx_scriptASTs := Some [final]; ctx_sfcAST := VNull;
          ctx_filename := filename; ctx_opts := optsOrDefault opts |} = Throw e ->
     transform src filename (before ++ p :: after) opts = Throw e) /\
  (forall buf scriptASTs templateAst ms scriptsAfter templateAfter,
     templateCalls filename opts before scriptASTs templateAst ms scriptsAfter templateAfter ->
     plugin_transform p
       {| ctx_scriptASTs := scriptsAfter; ctx_sfcAST := orNull templateAfter;
          ctx_filename := filename; ctx_opts := opts |} = Throw e ->
     templatePass buf scriptASTs templateAst filename (before ++ p :: after) opts = Throw e).
Proof.
  split.
  - intros ast ms final Hts Hparse Hcalls Hthrow.
    assert (Hrun : runTsCodemods filename (optsOrDefault opts) before ast []
                   = Ok (final, statsOf before ms)).
    { apply runTsCodemods_calls. exists ms. split; [exact Hcalls | reflexivity]. }
    unfold transform. rewrite Hts. unfold transformTypescriptFile.
    rewrite Hparse. cbn [bind].
    rewrite runTsCodemods_app, Hrun. cbn [bind runTsCodemods]. rewrite Hthrow. reflexivity.
  - intros buf scriptASTs templateAst ms scriptsAfter templateAfter Hcalls Hthrow.
    assert (Hrun : runVueCodemods filename opts before scriptASTs templateAst []
                   = Ok (scriptsAfter, templateAfter, statsOf before ms)).
    { apply runVueCodemods_calls. exists ms. split; [exact Hcalls | reflexivity]. }
    unfold templatePass.
    rewrite runVueCodemods_app, Hrun. cbn [bind runVueCodemods]. rewrite Hthrow. reflexivity.
Qed.

(** C9. For every file name that does not end in [.vue], [transform]
    returns exactly when the parse returns and every plugin call does, and
    the code it returns is then the printed text of the program as the last
    plugin call left it (each call is handed the program the calls before it
    left), followed by one newline; so it ends in a newline whatever the
    printer gave. *)
Theorem typescript_code_is_print_then_newline (src filename : string)
    (plugins : list CodemodPlugin) (opts : value) :
  Text.endsWith filename ".vue" = false ->
  (forall r,
     transform src filename plugins opts = Ok r <->
     exists ast ms final,
       parseTs src = Ok ast /\
       scriptCalls filename (optsOrDefault opts) plugins ast ms final /\
       r = {| code := (recast_print (Some final) ++ Text.newline)%string;
              stats := statsOf plugins ms |}) /\
  (forall r, transform src filename plugins opts = Ok r ->
             Text.endsWith (code r) Text.newline = true).
Proof.
  intros Hts. split.
  - intros r. unfold transform. rewrite Hts. apply transformTypescriptFile_calls.
  - intros r H. apply transform_calls in H.
    destruct H as [ast [ms [final [_ [_ ->]]]]]. apply TextFacts.endsWith_append.
Qed.

End PluginLoop.

(** ** Bookkeeping fields and the diff *)

Section ValueInduction.

Variable P : value -> Prop.
Hypothesis P_undefined : P VUndefined.
Hypothesis P_null : P VNull.
Hypothesis P_bool : forall b, P (VBool b).
Hypothesis P_num : forall n, P (VNum n).
Hypothesis P_str : forall s, P (VStr s).
Hypothesis P_arr : forall xs, Forall P xs -> P (VArr xs).
Hypothesis P_obj : forall fs, Forall (fun kv => P (snd kv)) fs -> P (VObj fs).

Fixpoint value_induction (v : value) : P v :=
  match v with
  | VUndefined => P_undefined
  | VNull => P_null
  | VBool b => P_bool b
  | VNum n => P_num n
  | VStr s => P_str s
  | VArr xs =>
      P_arr ((fix all (xs : list value) : Forall P xs :=
                match xs with
                | [] => Forall_nil P
                | x :: xs' => Forall_cons x (value_induction x) (all xs')
                end) xs)
  | VObj fs =>
      P_obj ((fix all (fs : fields) : Forall (fun kv => P (snd kv)) fs :=
                match fs with
                | [] => Forall_nil _
                | (k, x) :: fs' =>
                    Forall_cons (k, x) (value_induction x) (all fs')
                end) fs)
  end.

End ValueInduction.

Lemma content_obj (fs : fields) : content (VObj fs) = VObj (contentFields fs).
Proof.
  reflexivity.
Qed.

Lemma ignored_bookkeeping (p : path) (k : string) :
  ignored p (Key k) = false -> bookkeeping k = false.
Proof.
  unfold ignored. intros H.
  apply orb_false_iff in H. destruct H as [H _]. exact H.
Qed.

Lemma contentFields_in (fs : fields) (k : string) (c : value) :
  In (k, c) (contentFields fs) ->
  exists x, In (k, x) fs /\ content x = c /\ bookkeeping k = false.
Proof.
  induction fs as [|[k' x'] fs IH]; simpl; [tauto|].
  destruct (bookkeeping k') eqn:Hb.
  - intros H. destruct (IH H) as [x [Hin Hx]]. exists x. split; [now right | exact Hx].
  - intros [H|H].
    + inversion H; subst. exists x'. repeat split; [now left | exact Hb].
    + destruct (IH H) as [x [Hin Hx]]. exists x. split; [now right | exact Hx].
Qed.

Lemma in_contentFields (fs : fields) (k : string) (x : value) :
  In (k, x) fs -> bookkeeping k = false -> In (k, content x) (contentFields fs).
Proof.
  induction fs as [|[k' x'] fs IH]; simpl; [tauto|].
  intros [H|H] Hb.
  - inversion H; subst. rewrite Hb. now left.
  - destruct (bookkeeping k'); [|right]; now apply IH.
Qed.

Lemma lookup_in (fs : fields) (k : string) (x : value) :
  distinct (keys fs) = true -> In (k, x) fs -> lookup k fs = Some x.
Proof.
  induction fs as [|[k' x'] fs IH]; simpl; [tauto|].
  intros Hd [H|H].
  - inversion H; subst. now rewrite String.eqb_refl.
  - apply andb_true_iff in Hd. destruct Hd as [Hfresh Hd].
    destruct (String.eqb_spec k' k) as [->|Hne]; [|now apply IH].
    exfalso. apply negb_true_iff in Hfresh.
    assert (Hex : existsb (String.eqb k) (keys fs) = true).
    { apply existsb_exists. exists k. split; [|apply String.eqb_refl].
      unfold keys. change k with (fst (k, x)). now apply in_map. }
    congruence.
Qed.

Lemma existsb_keys (fs : fields) (k : string) :
  existsb (String.eqb k) (keys fs) = true <-> exists x, In (k, x) fs.
Proof.
  rewrite existsb_exists. unfold keys. split.
  - intros [k' [Hin He]]. apply String.eqb_eq in He. subst k'.
    apply in_map_iff in Hin. destruct Hin as [[k' x] [Hk Hin]]. simpl in Hk. subst k'.
    now exists x.
  - intros [x Hin]. exists k. split; [|apply String.eqb_refl].
    change k with (fst (k, x)). now apply in_map.
Qed.

Lemma wf_arr_items (xs : list value) :
  wf_value (VArr xs) = true -> Forall (fun x => wf_value x = true) xs.
Proof.
  simpl. intros H. apply Forall_forall. intros x Hx.
  rewrite forallb_forall in H. now apply H.
Qed.

Lemma wf_obj_fields (fs : fields) :
  wf_value (VObj fs) = true ->
  distinct (keys fs) = true /\ Forall (fun kv => wf_value (snd kv) = true) fs.
Proof.
  simpl. intros H. apply andb_true_iff in H. destruct H as [Hd Hall].
  split; [exact Hd|]. apply Forall_forall. intros kv Hkv.
  rewrite forallb_forall in Hall. now apply Hall.
Qed.

Lemma flat_map_nil (A B : Type) (f : A -> list B) (l : list A) :
  (forall x, In x l -> f x = []) -> flat_map f l = [].
Proof.
  induction l as [|x l IH]; simpl; intros H; [reflexivity|].
  rewrite (H x (or_introl eq_refl)). simpl. apply IH. intros y Hy. apply H. now right.
Qed.

(** Two well-formed trees with the same content give no change entry. *)
Lemma deepDiffRec_same_content (a : value) :
  forall (b : value) (p : path),
    wf_value a = true -> wf_value b = true -> content a = content b ->
    deepDiffRec ignored p a b = [].
Proof.
  induction a as [| |x|n|s|xs IH|fs IH] using value_induction; intros b p Hwa Hwb Hc.
  1-5: destruct b; simpl in Hc; try discriminate; inversion Hc; subst; simpl;
       rewrite ?Bool.eqb_reflx, ?Z.eqb_refl, ?String.eqb_refl; reflexivity.
  - destruct b as [| | | | |rs|]; simpl in Hc; try discriminate.
    inversion Hc as [Hmap]. clear Hc.
    assert (Hlen : List.length xs = List.length rs).
    { apply (f_equal (@List.length value)) in Hmap. now rewrite !length_map in Hmap. }
    apply wf_arr_items in Hwa. apply wf_arr_items in Hwb.
    cbn [deepDiffRec realTypeOf realType_eqb negb].
    replace (skipn (List.length xs) rs) with (@nil value)
      by (rewrite Hlen; symmetry; apply skipn_all).
    replace (skipn (List.length rs) xs) with (@nil value)
      by (rewrite <- Hlen; symmetry; apply skipn_all).
    simpl.
    generalize 0 as i. revert rs Hmap Hwb Hlen.
    induction IH as [|x xs Hx _ IHxs]; intros [|r rs] Hmap Hwb Hlen i; try discriminate; [reflexivity|].
    inversion Hmap. inversion Hwa; subst. inversion Hwb; subst.
    rewrite IHxs by (auto; simpl in Hlen; congruence).
    simpl. destruct (ignored p (Idx i)); [reflexivity|]. now apply Hx.
  - destruct b as [| | | | | |rf]; simpl in Hc; try discriminate.
    change (VObj (contentFields fs) = VObj (contentFields rf)) in Hc.
    inversion Hc as [Hfields]. clear Hc.
    apply wf_obj_fields in Hwa. destruct Hwa as [Hda Hwa].
    apply wf_obj_fields in Hwb. destruct Hwb as [Hdb Hwb].
    cbn [deepDiffRec realTypeOf realType_eqb negb].
    assert (Hright : forall k v', In (k, v') rf ->
              (if existsb (String.eqb k) (keys fs) then []
               else if String.eqb k "" then []
               else if ignored p (Key k) then []
               else [DiffNew (keepPath (p ++ [Key k])) v']) = []).
    { intros k v' Hin.
      destruct (existsb (String.eqb k) (keys fs)) eqn:Hex; [reflexivity|].
      destruct (String.eqb k ""); [reflexivity|].
      destruct (ignored p (Key k)) eqn:Hig; [reflexivity|].
      apply ignored_bookkeeping in Hig.
      assert (Hc : In (k, content v') (contentFields fs)).
      { rewrite Hfields. now apply in_contentFields. }
      apply contentFields_in in Hc. destruct Hc as [x [Hx _]].
      assert (existsb (String.eqb k) (keys fs) = true) by (apply existsb_keys; eauto).
      congruence. }
    assert (Hleft : forall k v, In (k, v) fs -> ignored p (Key k) = false ->
              exists v', lookup k rf = Some v' /\ wf_value v' = true /\ content v = content v').
    { intros k v Hin Hig. apply ignored_bookkeeping in Hig.
      assert (Hc : In (k, content v) (contentFields rf)).
      { rewrite <- Hfields. now apply in_contentFields. }
      apply contentFields_in in Hc. destruct Hc as [v' [Hv' [Hcv _]]].
      exists v'. repeat split.
      - now apply lookup_in.
      - rewrite Forall_forall in Hwb. exact (Hwb (k, v') Hv').
      - now symmetry. }
    match goal with
    | |- ?l ++ ?r = [] =>
        assert (Hl : l = []); [| assert (Hr : r = []); [| now rewrite Hl, Hr]]
    end.
    + clear Hright Hda Hfields.
      induction IH as [|[k v] fs' Hv _ IHfs]; [reflexivity|].
      inversion Hwa; subst.
      rewrite IHfs by (auto; intros; apply Hleft; auto; now right).
      rewrite app_nil_r.
      destruct (ignored p (Key k)) eqn:Hig; [reflexivity|].
      destruct (Hleft k v (or_introl eq_refl) Hig) as [v' [Hl [Hw Hcv]]].
      rewrite Hl. now apply Hv.
    + apply flat_map_nil. intros [k v'] Hin. now apply Hright.
Qed.

Lemma content_undefined (v : value) : content v = VUndefined -> v = VUndefined.
Proof. destruct v; simpl; intros H; try discriminate; reflexivity. Qed.

Lemma templateDiff_same_content (originalTemplate templateAst : value) :
  wf_value originalTemplate = true -> wf_value templateAst = true ->
  content originalTemplate = content templateAst ->
  templateDiff originalTemplate templateAst = [].
Proof.
  intros Hwa Hwb Hc. unfold templateDiff, deepDiff.
  destruct originalTemplate eqn:Ea.
  1: { symmetry in Hc. apply content_undefined in Hc. now subst. }
  all: destruct templateAst eqn:Eb;
    try (apply content_undefined in Hc; discriminate);
    now apply deepDiffRec_same_content.
Qed.

(** ** The kinds of the entries of a diff *)

Lemma extraItems_entries (mk : value -> change) (p : path) (xs : list value) :
  forall start c, In c (extraItems mk p start xs) ->
                  exists i x, c = DiffArray (keepPath p) i (mk x).
Proof.
  induction xs as [|x xs IH]; simpl; intros start c H; [destruct H|].
  apply in_app_or in H. destruct H as [H|[<-|[]]]; [eapply IH; eauto | eauto].
Qed.

(** Every Array entry deep-diff makes holds a New or a Deleted item. *)
Lemma deepDiffRec_wellFormed (a : value) :
  forall (b : value) (p : path) (c : change),
    In c (deepDiffRec ignored p a b) -> wellFormedEntry c = true.
Proof.
  induction a as [| |x|n|s|xs IH|fs IH] using value_induction; intros b p c Hin.
  1-5: destruct b; simpl in Hin;
       repeat match goal with
              | H : In _ (if ?t then _ else _) |- _ => destruct t
              | H : In _ [] |- _ => destruct H
              | H : False |- _ => destruct H
              | H : _ \/ False |- _ => destruct H as [<-|[]]
              | H : In _ [_] |- _ => destruct H as [<-|[]]
              end; reflexivity.
  - destruct b as [| | | | |rs|];
      try (simpl in Hin; destruct Hin as [<-|[]]; reflexivity).
    cbn [deepDiffRec realTypeOf realType_eqb negb] in Hin.
    apply in_app_or in Hin. destruct Hin as [Hin|Hin].
    { apply extraItems_entries in Hin. destruct Hin as [i [x ->]]. reflexivity. }
    apply in_app_or in Hin. destruct Hin as [Hin|Hin].
    { apply extraItems_entries in Hin. destruct Hin as [i [x ->]]. reflexivity. }
    revert Hin. generalize 0 as i. revert rs.
    induction IH as [|x xs Hx _ IHxs]; intros [|r rs] i Hin; try destruct Hin.
    apply in_app_or in Hin. destruct Hin as [Hin|Hin]; [now apply (IHxs rs (S i))|].
    destruct (ignored p (Idx i)); [destruct Hin|].
    now apply (Hx r (p ++ [Idx i])).
  - destruct b as [| | | | | |rf];
      try (simpl in Hin; destruct Hin as [<-|[]]; reflexivity).
    cbn [deepDiffRec realTypeOf realType_eqb negb] in Hin.
    apply in_app_or in Hin. destruct Hin as [Hin|Hin].
    + induction IH as [|[k v] fs' Hv _ IHfs]; [destruct Hin|].
      apply in_app_or in Hin. destruct Hin as [Hin|Hin]; [|now apply IHfs].
      destruct (ignored p (Key k)); [destruct Hin|].
      destruct (lookup k rf) as [v'|].
      * now apply (Hv v' (p ++ [Key k])).
      * destruct Hin as [<-|[]]. reflexivity.
    + apply in_flat_map in Hin. destruct Hin as [[k v'] [_ Hin]].
      destruct (existsb (String.eqb k) (keys fs)); [destruct Hin|].
      destruct (String.eqb k ""); [destruct Hin|].
      destruct (ignored p (Key k)); [destruct Hin|].
      destruct Hin as [<-|[]]. reflexivity.
Qed.

Lemma templateDiff_wellFormed (originalTemplate templateAst : value) (c : change) :
  In c (templateDiff originalTemplate templateAst) -> wellFormedEntry c = true.
Proof.
  unfold templateDiff, deepDiff. intros Hin.
  destruct originalTemplate, templateAst;
    try (destruct Hin as [<-|[]]; reflexivity);
    try (now apply deepDiffRec_wellFormed in Hin).
  destruct Hin.
Qed.

Lemma kindOfEntry_structural (p : change) :
  wellFormedEntry p = true ->
  (negb (kind_eqb (change_kind p) E) = true <->
   kindOfEntry p = NewEntry \/ kindOfEntry p = DeleteEntry).
Proof.
  destruct p as [q v|q v|q l r|q i item].
  - intros _. simpl. split; auto.
  - intros _. simpl. split; auto.
  - intros _. simpl. split; [discriminate | intros [H|H]; discriminate].
  - destruct item as [[q'|] v|[q'|] v|q' l r|q' j it]; simpl; try discriminate;
      intros _; split; auto.
Qed.

(** C2. In the change-set reduction of a [.vue] pass the root-changed flag
    is set if and only if some change entry's corrected owning path has depth
    at most 3 and that entry's kind is New or Delete; an Edit entry never sets
    the flag, whatever its depth.  The entries are the ones the diff of the
    snapshot and the live tree gives; an element added to or removed from an
    array is a New or a Delete entry. *)
Theorem rootNodeChanged_iff_shallow_structural
    (orig tpl : value) (changed : list ChangedNode) (flag : bool) :
  changedNodes orig tpl false (templateDiff orig tpl) = Ok (changed, flag) ->
  (flag = true <->
   exists p, In p (templateDiff orig tpl) /\
             List.length (nodePath (change_path p)) <= 3 /\
             (kindOfEntry p = NewEntry \/ kindOfEntry p = DeleteEntry)) /\
  (forall p, In p (templateDiff orig tpl) -> kindOfEntry p = EditEntry ->
             touchesRoot p = false).
Proof.
  intros H. apply changedNodes_flag in H. simpl in H. subst flag.
  assert (Hspec : forall p, In p (templateDiff orig tpl) ->
            (touchesRoot p = true <->
             List.length (nodePath (change_path p)) <= 3 /\
             (kindOfEntry p = NewEntry \/ kindOfEntry p = DeleteEntry))).
  { intros p Hin. unfold touchesRoot. rewrite andb_true_iff, Nat.leb_le.
    rewrite (kindOfEntry_structural p (templateDiff_wellFormed _ _ _ Hin)). reflexivity. }
  split.
  - rewrite existsb_exists. split.
    + intros [p [Hin Hp]]. exists p. split; [exact Hin|]. now apply Hspec.
    + intros [p [Hin Hp]]. exists p. split; [exact Hin|]. now apply Hspec.
  - intros p Hin Hk. destruct (touchesRoot p) eqn:Ht; [|reflexivity].
    apply (Hspec p Hin) in Ht. destruct Ht as [_ [Hn|Hd]]; congruence.
Qed.

Section Identity.

Context {X : Externals} {M : MagicString}.

(** With no change entry the buffer is never touched: the pass over the
    template returns the text of the buffer as it is. *)
Lemma templatePass_no_change (buf : buffer) (scriptASTs : option (list Program))
    (templateAst : value) (filename : string)
    (plugins : list CodemodPlugin) (opts : value)
    (scripts : option (list Program)) (tpl final : value) (st : Stats) :
  runVueCodemods filename opts plugins scriptASTs templateAst [] = Ok (scripts, tpl, st) ->
  diffedTemplate scripts tpl = Ok final ->
  templateDiff templateAst final = [] ->
  templatePass buf scriptASTs templateAst filename plugins opts =
  Ok {| code := ms_toString buf; stats := st |}.
Proof.
  intros Hrun Hfinal Hdiff.
  unfold templatePass. rewrite Hrun. cbn [bind].
  destruct (truthy tpl && truthy templateAst); [|reflexivity].
  rewrite Hfinal. cbn [bind]. rewrite Hdiff. reflexivity.
Qed.

(** C5, as the code has it. If the tree that reaches the diff, which is the
    post-mutation tree after the pass itself has re-rendered the text of its
    script hosts, differs from the pre-mutation snapshot only in bookkeeping
    fields ([parent], [loc], [range], [variables]), the diff has no change
    entry and the pass over the template, from line 57 on, returns the text
    the buffer was made from.  Both trees are JavaScript objects: their keys
    are distinct. *)
Theorem bookkeeping_difference_gives_no_change (src filename : string)
    (plugins : list CodemodPlugin) (opts : value)
    (scriptASTs : option (list Program)) (templateAst : value) (ms : list Mutation)
    (scriptsAfter : option (list Program)) (templateAfter final : value) :
  templateCalls filename opts plugins scriptASTs templateAst ms scriptsAfter templateAfter ->
  diffedTemplate scriptsAfter templateAfter = Ok final ->
  wf_value templateAst = true ->
  wf_value final = true ->
  content templateAst = content final ->
  templateDiff templateAst final = [] /\
  templatePass (ms_new src) scriptASTs templateAst filename plugins opts =
  Ok {| code := src; stats := statsOf plugins ms |}.
Proof.
  intros Hcalls Hfinal Hwa Hwb Hc.
  assert (Hdiff : templateDiff templateAst final = [])
    by now apply templateDiff_same_content.
  split; [exact Hdiff|].
  assert (Hrun : runVueCodemods filename opts plugins scriptASTs templateAst []
                 = Ok (scriptsAfter, templateAfter, statsOf plugins ms)).
  { apply runVueCodemods_calls. exists ms. split; [exact Hcalls | reflexivity]. }
  rewrite (@templatePass_no_change (ms_new src) _ _ _ _ _ _ _ _ _ Hrun Hfinal Hdiff).
  now rewrite ms_toString_new.
Qed.

Lemma runTsCodemods_no_mutation (filename : string) (opts : value)
    (codemods : list CodemodPlugin) :
  Forall performsNoMutation codemods ->
  forall ast st, exists st',
    runTsCodemods filename opts codemods ast st = Ok (ast, st').
Proof.
  induction 1 as [|p rest Hp _ IH]; intros ast st; simpl.
  - now exists st.
  - destruct (Hp {| ctx_scriptASTs := Some [ast]; ctx_sfcAST := VNull;
                    ctx_filename := filename; ctx_opts := opts |}) as [n Hn].
    rewrite Hn. simpl. apply IH.
Qed.

(** C1, as the code has it. With an empty plugin list, or plugins that
    perform no mutation, and a file name that does not end in [.vue], the
    code [transform] returns is the printed text of the parsed program
    followed by one newline. *)
Theorem transform_without_mutation (src filename : string)
    (plugins : list CodemodPlugin) (opts : value) (ast : Program) :
  Forall performsNoMutation plugins ->
  Text.endsWith filename ".vue" = false ->
  parseTs src = Ok ast ->
  exists st,
    transform src filename plugins opts =
    Ok {| code := (recast_print (Some ast) ++ Text.newline)%string; stats := st |}.
Proof.
  intros Hidle Hts Hparse.
  destruct (runTsCodemods_no_mutation filename (optsOrDefault opts) Hidle ast [])
    as [st Hrun].
  exists st. unfold transform. rewrite Hts. unfold transformTypescriptFile.
  rewrite Hparse. cbn [bind]. rewrite Hrun. reflexivity.
Qed.

End Identity.

(** ** Depth, reads and writes *)

Arguments arrayIndex k : simpl never.



Lemma lookup_found (fs : fields) (k : string) (x : value) :
  lookup k fs = Some x -> In (k, x) fs.
Proof.
  induction fs as [|[k' y] fs IH]; simpl; [discriminate|].
  destruct (String.eqb_spec k' k) as [->|Hne].
  - intros H. inversion H; subst. now left.
  - intros H. right. now apply IH.
Qed.













(** ** Traversals that leave the tree alone *)


Section TraverseFacts.

Variable St : Type.
Variable keysOf : value -> list string.








End TraverseFacts.

Section Rerender.

Context {X : Externals}.
Variable scriptASTs : list Program.












End Rerender.

(** ** The template appended by [parseVue] *)

Lemma includes_append (a b p : string) :
  Text.includes b p = true -> Text.includes (a ++ b)%string p = true.
Proof.
  intros H. induction a as [|c a IH]; simpl; [exact H|].
  rewrite IH. apply orb_true_r.
Qed.

Section ParseVue.

Context {X : Externals}.

(** C10, what the code does instead. For every input of [parseVue] whose
    text does not contain ['<template'], the text handed to the Vue parser is
    the input followed by a newline and ['<template></template>'], so that
    text does contain a template; but that does not make the parser report a
    template body: when it reports none, the non-null assertion, erased at
    run time, does fail, and [parseVue] throws a [TypeError]. *)
Theorem parseVue_appends_template (src : string) :
  Text.includes src templateTag = false ->
  vueSource src = (src ++ Text.newline ++ "<template></template>")%string /\
  Text.includes (vueSource src) templateTag = true /\
  (forall ast,
     vueParser_parse (vueSource src) = Ok ast ->
     match templateBody ast with
     | Some body =>
         parseVue src =
         (asts <- mapM (parseScript (vueSource src))
                    (findAll (tb_parent body)
                       [("type", VStr "VElement"); ("name", VStr "script")]) ;;
          Ok {| vueAst := ast; scriptAsts := asts |})
     | None => exists msg, parseVue src = Throw (TypeError msg)
     end).
Proof.
  intros Hno.
  assert (Hsrc : vueSource src = (src ++ Text.newline ++ "<template></template>")%string).
  { unfold vueSource. now rewrite Hno. }
  split; [exact Hsrc|]. split.
  - rewrite Hsrc. apply includes_append. apply includes_append. reflexivity.
  - intros ast Hparse. unfold parseVue. rewrite Hparse. simpl.
    destruct (templateBody ast) as [body|]; [reflexivity|]. eexists. reflexivity.
Qed.

End ParseVue.

(** ** The properties on the sample component *)

Lemma idle_performs_no_mutation :
  Forall (performsNoMutation (X := Sample.externals)) [Sample.idle].
Proof.
  constructor; [|constructor]. intros ctx. exists 0%Z. reflexivity.
Defined.

(** C1 on a one-line script, with a plugin that changes nothing and no
    options given. *)
Lemma transform_without_mutation_witness :
  exists st,
    transform (X := Sample.externals) (M := Sample.simpleBuffer)
      "let a" "main.ts" [Sample.idle] VUndefined
    = Ok {| code := ("let a" ++ Text.newline)%string; stats := st |}.
Proof.
  apply (@transform_without_mutation Sample.externals Sample.simpleBuffer
           "let a" "main.ts" [Sample.idle] VUndefined "let a" idle_performs_no_mutation);
    reflexivity.
Defined.

(** C1 as stated fails: with no plugin at all, a script file that does not
    end in a newline comes back with one appended, and the pass over a
    component returns no text at all. *)
Lemma transform_appends_newline_to_script :
  (exists r,
     transform (X := Sample.externals) (M := Sample.simpleBuffer)
       "let a" "main.ts" [] VNull = Ok r /\
     code r <> "let a") /\
  transform (X := Sample.externals) (M := Sample.simpleBuffer)
    Sample.source "App.vue" [] VNull
  = Throw (TypeError "Cannot read properties of undefined (reading 'templateBody')").
Proof.
  split; [|reflexivity].
  eexists. split; [reflexivity|]. simpl. discriminate.
Qed.

(** C2 on the sample: a text node appended to the top-level children is a
    New entry at depth 0. *)
Lemma rootNodeChanged_witness :
  exists changed,
    changedNodes Sample.document Sample.documentWithNote false
      (templateDiff Sample.document Sample.documentWithNote) = Ok (changed, true) /\
    exists p,
      In p (templateDiff Sample.document Sample.documentWithNote) /\
      List.length (nodePath (change_path p)) <= 3 /\
      (kindOfEntry p = NewEntry \/ kindOfEntry p = DeleteEntry).
Proof.
  eexists. split; [reflexivity|].
  apply (@rootNodeChanged_iff_shallow_structural
           Sample.document Sample.documentWithNote _ true eq_refl).
  reflexivity.
Defined.

(** C3 on the sample: the record of the paragraph's text comes before the
    record of the paragraph. *)
Lemma collapse_keeps_earlier_descendant_witness :
  isProperPrefix (cn_path Sample.paragraphRecord) (cn_path Sample.textRecord) /\
  hd_error (collapsedChanges [Sample.textRecord; Sample.paragraphRecord])
    = Some Sample.textRecord /\
  ~ In Sample.paragraphRecord
      (collapsedChanges [Sample.textRecord; Sample.paragraphRecord]).
Proof.
  assert (Hpre : isProperPrefix (cn_path Sample.paragraphRecord) (cn_path Sample.textRecord)).
  { split; [simpl; lia | reflexivity]. }
  split; [exact Hpre|].
  exact (@collapse_keeps_earlier_descendant
           Sample.textRecord Sample.paragraphRecord [Sample.paragraphRecord] Hpre).
Defined.

(** The same through the pass over the template: the plugin rewrites the
    text of the paragraph and drops the paragraph's end tag; the diff reports
    the text first, the collapse keeps that record alone, and the returned
    code has the new text but still the old tags. *)
Example selfClose_patches_the_text_only :
  templatePass (X := Sample.externals) (M := Sample.simpleBuffer)
    (ms_new Sample.source) (Some ["let a"]) Sample.document "App.vue" [Sample.selfClose] VNull
  = Ok {| code := ("<template><p>yo</p></template>" ++ Text.newline ++
                   "<script>" ++ Text.newline ++ "let a" ++ Text.newline ++ "</script>")%string;
          stats := [("self-close", 2%Z)] |}.
Proof. vm_compute. reflexivity. Qed.

Example replaceMarker_sample :
  replaceMarker ("a" ++ METAMORPH_START ++ Text.newline ++ Text.newline ++ "b"
                 ++ METAMORPH_START ++ "c")%string
  = ("a" ++ Text.newline ++ "b" ++ METAMORPH_START ++ "c")%string.
Proof. vm_compute. reflexivity. Qed.



(** C5 on the sample component, with a plugin that refreshes a range and a
    parent link. *)
Lemma bookkeeping_difference_witness :
  exists final,
    diffedTemplate (X := Sample.externals) (Some ["let a"]) Sample.refreshedDocument = Ok final /\
    content Sample.document = content final /\
    templateDiff Sample.document final = [] /\
    templatePass (X := Sample.externals) (M := Sample.simpleBuffer)
      (ms_new Sample.source) (Some ["let a"]) Sample.document "App.vue" [Sample.refresh] VNull
    = Ok {| code := Sample.source; stats := [("refresh", 0%Z)] |}.
Proof.
  eexists. split; [reflexivity|]. split; [reflexivity|].
  apply (@bookkeeping_difference_gives_no_change Sample.externals Sample.simpleBuffer
           Sample.source "App.vue" [Sample.refresh] VNull
           (Some ["let a"]) Sample.document
           [(@Build_Mutation Sample.externals 0%Z ["let a"] Sample.refreshedDocument)]
           (Some ["let a"]) Sample.refreshedDocument).
  - split; [reflexivity | split; reflexivity].
  - reflexivity.
  - reflexivity.
  - reflexivity.
  - reflexivity.
Defined.

(** C5 as stated fails: no plugin touches the tree, so the post-mutation
    tree is the snapshot itself, and yet the diff has an entry and the text
    that comes back is not the input, because the pass re-renders the text
    of the script host before it compares: the text [let a] after two spaces
    comes back without them. *)
Lemma rerendering_alone_gives_a_change :
  runVueCodemods (X := Sample.externals) "App.vue" VNull []
    (Some ["let a"]) Sample.looseDocument []
  = Ok (Some ["let a"], Sample.looseDocument, []) /\
  (exists final,
     diffedTemplate (X := Sample.externals) (Some ["let a"]) Sample.looseDocument = Ok final /\
     templateDiff Sample.looseDocument final
     = [DiffEdit (Some Sample.hostValuePath) (VStr Sample.looseScriptBody)
          (VStr Sample.scriptBody)]) /\
  templatePass (X := Sample.externals) (M := Sample.simpleBuffer)
    (ms_new Sample.looseSource) (Some ["let a"]) Sample.looseDocument "App.vue" [] VNull
  = Ok {| code := Sample.source; stats := [] |} /\
  Sample.source <> Sample.looseSource.
Proof.
  split; [reflexivity|]. split.
  - eexists. split; reflexivity.
  - split; [reflexivity | discriminate].
Qed.

(** C7 on a one-line script, with two plugins and no options given. *)
Lemma transform_stats_witness :
  exists ast ms final,
    parseTs (X := Sample.externals) "let a" = Ok ast /\
    scriptCalls "main.ts" (optsOrDefault VUndefined) [Sample.idle; Sample.rename] ast ms final /\
    [("idle", 0%Z); ("rename", 1%Z)] = statsOf [Sample.idle; Sample.rename] ms /\
    List.length [("idle", 0%Z); ("rename", 1%Z)] = 2 /\
    map fst [("idle", 0%Z); ("rename", 1%Z)] = ["idle"; "rename"] /\
    map snd [("idle", 0%Z); ("rename", 1%Z)] = map count ms.
Proof.
  apply (proj1 (@transform_stats_per_plugin Sample.externals Sample.simpleBuffer
                  "let a" "main.ts" [Sample.idle; Sample.rename] VUndefined)
           {| code := ("let b" ++ Text.newline)%string;
              stats := [("idle", 0%Z); ("rename", 1%Z)] |}).
  reflexivity.
Defined.

(** C8 on a script file and on the pass over the sample component: the
    second of three plugins throws. *)
Lemma plugin_exception_witness :
  transform (X := Sample.externals) (M := Sample.simpleBuffer)
    "let a" "main.ts" ([Sample.idle] ++ Sample.broken :: [Sample.idle]) VNull
  = Throw (Raised "boom") /\
  templatePass (X := Sample.externals) (M := Sample.simpleBuffer)
    (ms_new Sample.source) (Some ["let a"]) Sample.document "App.vue"
    ([Sample.idle] ++ Sample.broken :: [Sample.idle]) VNull
  = Throw (Raised "boom").
Proof.
  split.
  - apply (proj1 (@plugin_exception_propagates Sample.externals Sample.simpleBuffer
                    "let a" "main.ts" [Sample.idle] [Sample.idle] Sample.broken VNull
                    (Raised "boom"))
             "let a"
             [(@Build_Mutation Sample.externals 0%Z ["let a"] VNull)] "let a").
    + reflexivity.
    + reflexivity.
    + split; reflexivity.
    + reflexivity.
  - apply (proj2 (@plugin_exception_propagates Sample.externals Sample.simpleBuffer
                    "let a" "App.vue" [Sample.idle] [Sample.idle] Sample.broken VNull
                    (Raised "boom"))
             (ms_new Sample.source) (Some ["let a"]) Sample.document
             [(@Build_Mutation Sample.externals 0%Z ["let a"] Sample.document)]
             (Some ["let a"]) Sample.document).
    + split; [reflexivity | split; reflexivity].
    + reflexivity.
Defined.

(** C9 on a one-line script, with a plugin that replaces the program. *)
Lemma typescript_code_witness :
  Text.endsWith "main.ts" ".vue" = false /\
  transform (X := Sample.externals) (M := Sample.simpleBuffer)
    "let a" "main.ts" [Sample.rename] VUndefined
  = Ok {| code := ("let b" ++ Text.newline)%string; stats := [("rename", 1%Z)] |}.
Proof.
  split; [reflexivity|].
  apply (proj1 (@typescript_code_is_print_then_newline Sample.externals Sample.simpleBuffer
                  "let a" "main.ts" [Sample.rename] VUndefined eq_refl)).
  exists "let a",
         [(@Build_Mutation Sample.externals 1%Z ["let b"] VNull)],
         "let b".
  split; [reflexivity|]. split; [|reflexivity].
  split; reflexivity.
Defined.

(** C10 at a text that leaves a comment open: the template is appended, and
    still there is no template body; reading its parent throws. *)
Lemma parseVue_open_comment_has_no_template :
  Text.includes Sample.openComment templateTag = false /\
  Text.includes (vueSource Sample.openComment) templateTag = true /\
  exists msg, parseVue (X := Sample.externals) Sample.openComment = Throw (TypeError msg).
Proof.
  split; [reflexivity|].
  destruct (@parseVue_appends_template Sample.externals Sample.openComment eq_refl)
    as [_ [Hhas Hparse]].
  split; [exact Hhas|].
  exact (Hparse {| templateBody := None |} eq_refl).
Defined.

(** * Further properties of the code *)

(** ** The change-set reduction *)

Lemma changedNodes_app (orig tpl : value) (before after : list change) :
  forall flag,
    changedNodes orig tpl flag (before ++ after) =
    ('(cs, flag1) <- changedNodes orig tpl flag before ;;
     '(cs', flag2) <- changedNodes orig tpl flag1 after ;;
     Ok (cs ++ cs', flag2)).
Proof.
  induction before as [|p rest IH]; intros flag; simpl.
  - destruct (changedNodes orig tpl flag after) as [[cs f]|e]; reflexivity.
  - destruct (changedNode orig tpl flag p) as [[c f1]|e]; simpl; [|reflexivity].
    rewrite IH.
    destruct (changedNodes orig tpl f1 rest) as [[cs f2]|e]; simpl; [|reflexivity].
    destruct (changedNodes orig tpl f2 after) as [[cs' f3]|e]; reflexivity.
Qed.

Lemma get_empty_path (object : value) : get object [] = VUndefined.
Proof. unfold get. destruct (nullish object); reflexivity. Qed.

Lemma changedNode_root_edit (orig tpl : value) (p : change) :
  change_kind p = E -> nodePath (change_path p) = [] ->
  exists msg, changedNode orig tpl false p = Throw (TypeError msg).
Proof.
  intros Hk Hp. unfold changedNode, touchesRoot. rewrite Hk, Hp. simpl.
  rewrite get_empty_path. simpl. eexists. reflexivity.
Qed.

(** X1. An Edit entry for a property of the root itself (its owning path is
    empty) makes the reduction throw a [TypeError] when no earlier entry has
    set the root-changed flag: lodash [get] answers [undefined] for an empty
    path, and the callback reads [range] of it.  The patch step throws with
    it. *)
Theorem root_property_edit_throws {M : MagicString} {X : Externals}
    (ms : buffer) (orig tpl : value)
    (before : list change) (p : change) (rest : list change)
    (earlier : list ChangedNode) :
  changedNodes orig tpl false before = Ok (earlier, false) ->
  change_kind p = E ->
  nodePath (change_path p) = [] ->
  exists msg,
    changedNodes orig tpl false (before ++ p :: rest) = Throw (TypeError msg) /\
    patch ms orig tpl (before ++ p :: rest) = Throw (TypeError msg).
Proof.
  intros Hbefore Hk Hp.
  destruct (changedNode_root_edit orig tpl p Hk Hp) as [msg Hthrow].
  exists msg.
  assert (Hall : changedNodes orig tpl false (before ++ p :: rest) = Throw (TypeError msg)).
  { rewrite changedNodes_app, Hbefore. simpl. rewrite Hthrow. reflexivity. }
  split; [exact Hall|]. unfold patch. rewrite Hall. reflexivity.
Qed.

Lemma changedNodes_reads_root (orig tpl : value) (diff : list change) :
  forall flag changed flag',
    changedNodes orig tpl flag diff = Ok (changed, flag') ->
    existsb touchesRoot diff = true ->
    exists r, rangeOf orig = Ok r.
Proof.
  induction diff as [|p rest IH]; simpl; intros flag changed flag' H Hex; [discriminate|].
  apply bind_Ok_inv in H. destruct H as [[c f1] [Hc H]].
  apply bind_Ok_inv in H. destruct H as [[cs f2] [Hrest _]].
  destruct (touchesRoot p) eqn:Ht.
  - unfold changedNode in Hc. rewrite Ht in Hc.
    apply bind_Ok_inv in Hc. destruct Hc as [r [Hr _]]. now exists r.
  - simpl in Hex. eapply IH; eauto.
Qed.

(** X2. The root fallback: when some entry sets the root-changed flag and
    the reduction returns, the root's range is readable and the whole patch
    is one replacement, of that range, by the rendered template; no other
    range is touched. *)
Theorem root_fallback_is_one_update {M : MagicString} {X : Externals}
    (ms : buffer) (orig tpl : value) (diff : list change)
    (changed : list ChangedNode) (flag : bool) :
  changedNodes orig tpl false diff = Ok (changed, flag) ->
  existsb touchesRoot diff = true ->
  exists s e,
    rangeOf orig = Ok (s, e) /\
    patch ms orig tpl diff = ms_update ms s e (stringify tpl).
Proof.
  intros H Hex.
  destruct (changedNodes_reads_root _ _ _ _ H Hex) as [[s e] Hr].
  exists s, e. split; [exact Hr|].
  unfold patch. rewrite H. simpl.
  apply changedNodes_flag in H. simpl in H. rewrite Hex in H. subst flag.
  rewrite Hr. reflexivity.
Qed.

(** X3. When no entry sets the root-changed flag and the reduction
    returns, there is one record per change entry, in order, and each holds
    the entry's owning path, which is not empty, the range of the snapshot's
    node at that path and the live tree's node at the same path. *)
Theorem records_are_local (orig tpl : value) (diff : list change)
    (changed : list ChangedNode) :
  changedNodes orig tpl false diff = Ok (changed, false) ->
  Forall2 (localRecord orig tpl) diff changed.
Proof.
  revert changed. induction diff as [|p rest IH]; simpl; intros changed H.
  - inversion H. constructor.
  - apply bind_Ok_inv in H. destruct H as [[c f1] [Hc H]].
    apply bind_Ok_inv in H. destruct H as [[cs f2] [Hrest H]].
    inversion H; subst. clear H.
    pose proof (changedNodes_flag _ _ _ _ Hrest) as Hflag.
    symmetry in Hflag. apply orb_false_iff in Hflag. destruct Hflag as [-> _].
    constructor; [|now apply IH].
    unfold changedNode in Hc.
    destruct (touchesRoot p); [apply bind_Ok_inv in Hc; destruct Hc as [[s e] [_ Hc]]; inversion Hc|].
    apply bind_Ok_inv in Hc. destruct Hc as [[s e] [Hr Hc]].
    inversion Hc; subst. clear Hc. unfold localRecord. simpl.
    destruct (nodePath (change_path p)) as [|k path] eqn:Hpath.
    + rewrite get_empty_path in Hr. discriminate.
    + repeat split; [discriminate | exact Hr].
Qed.

(** X1 on the sample document: an Edit of the root's [type]. *)
Lemma root_property_edit_throws_witness :
  exists msg,
    changedNodes Sample.document Sample.document false
      ([] ++ DiffEdit (Some [Key "type"]) (VStr "VDocumentFragment") (VStr "VElement") :: [])
    = Throw (TypeError msg) /\
    patch (M := Sample.simpleBuffer) (X := Sample.externals)
      (ms_new Sample.source) Sample.document Sample.document
      ([] ++ DiffEdit (Some [Key "type"]) (VStr "VDocumentFragment") (VStr "VElement") :: [])
    = Throw (TypeError msg).
Proof.
  apply (@root_property_edit_throws Sample.simpleBuffer Sample.externals
           (ms_new Sample.source) Sample.document Sample.document
           [] (DiffEdit (Some [Key "type"]) (VStr "VDocumentFragment") (VStr "VElement")) [] []);
    reflexivity.
Defined.

(** X2 on the sample: a text node appended to the top-level children. *)
Lemma root_fallback_witness :
  exists s e,
    rangeOf Sample.document = Ok (s, e) /\
    patch (M := Sample.simpleBuffer) (X := Sample.externals)
      (ms_new Sample.source) Sample.document Sample.documentWithNote
      (templateDiff Sample.document Sample.documentWithNote)
    = ms_update (ms_new Sample.source) s e
        (stringify (Externals := Sample.externals) Sample.documentWithNote).
Proof.
  eapply (@root_fallback_is_one_update Sample.simpleBuffer Sample.externals
            (ms_new Sample.source) Sample.document Sample.documentWithNote
            (templateDiff Sample.document Sample.documentWithNote)); reflexivity.
Defined.

(** X3 on the sample: the paragraph's text is rewritten. *)
Lemma records_are_local_witness :
  Forall2 (localRecord Sample.document
             (Sample.assignAt (Sample.pathToText ++ [Key "value"]) (VStr "yo") Sample.document))
    (templateDiff Sample.document
       (Sample.assignAt (Sample.pathToText ++ [Key "value"]) (VStr "yo") Sample.document))
    [Sample.textRecord].
Proof.
  apply (@records_are_local Sample.document
           (Sample.assignAt (Sample.pathToText ++ [Key "value"]) (VStr "yo") Sample.document)
           (templateDiff Sample.document
              (Sample.assignAt (Sample.pathToText ++ [Key "value"]) (VStr "yo") Sample.document))
           [Sample.textRecord]).
  reflexivity.
Defined.

(** ** How deep an entry must be to stay local *)

Lemma nodePath_length (p : path) :
  List.length p - 3 <= List.length (nodePath (Some p)) <= List.length p - 1.
Proof.
  rewrite <- (rev_involutive p) at 2 3. rewrite nodePath_rev, length_rev.
  pose proof (dropKeyPart_length (dropStartTag (tl (rev p)))) as Hk.
  pose proof (dropStartTag_length (tl (rev p))) as Hs.
  assert (Ht : List.length (tl (rev p)) = List.length p - 1).
  { rewrite <- (length_rev p). destruct (rev p); simpl; lia. }
  lia.
Qed.

(** X4. The depth of the entry's own path decides the root fallback at
    both ends: an entry that is not an Edit and whose path has at most four
    segments always sets the root-changed flag, because its owning path has
    at most three; an entry whose path has seven segments or more never sets
    it, whatever its kind, because at most three segments are removed. *)
Theorem entry_depth_decides_fallback (p : change) :
  (change_kind p <> E -> List.length (entryPath p) <= 4 -> touchesRoot p = true) /\
  (7 <= List.length (entryPath p) -> touchesRoot p = false).
Proof.
  assert (Hpath : nodePath (change_path p) = nodePath (Some (entryPath p))).
  { unfold entryPath. destruct (change_path p); reflexivity. }
  pose proof (nodePath_length (entryPath p)) as Hlen.
  unfold touchesRoot. rewrite Hpath. split.
  - intros Hk Hshort. apply andb_true_iff. split.
    + apply Nat.leb_le. lia.
    + destruct (change_kind p); try reflexivity. now elim Hk.
  - intros Hdeep. apply andb_false_iff. left. apply Nat.leb_gt. lia.
Qed.

(** X4 on two entries: an element deleted from the children of a top-level
    child, and a new attribute seven segments down. *)
Lemma entry_depth_witness :
  touchesRoot (DiffArray (Some [Key "children"; Idx 0; Key "children"]) 1
                 (DiffDeleted None Sample.note)) = true /\
  touchesRoot (DiffNew (Some [Key "children"; Idx 0; Key "children"; Idx 0;
                              Key "children"; Idx 0; Key "rawName"]) (VStr "b")) = false.
Proof.
  split.
  - apply (proj1 (entry_depth_decides_fallback
                    (DiffArray (Some [Key "children"; Idx 0; Key "children"]) 1
                       (DiffDeleted None Sample.note)))).
    + discriminate.
    + simpl. lia.
  - apply (proj2 (entry_depth_decides_fallback
                    (DiffNew (Some [Key "children"; Idx 0; Key "children"; Idx 0;
                                    Key "children"; Idx 0; Key "rawName"]) (VStr "b")))).
    simpl. lia.
Defined.

(** ** What the collapse keeps *)

Lemma samePathOrAncestor_related (a b : ChangedNode) :
  samePathOrAncestor a b = true <-> related (cn_path a) (cn_path b).
Proof.
  split.
  - unfold samePathOrAncestor, related, isProperPrefix, Arr.slice0.
    destruct (Nat.eqb_spec (List.length (cn_path a)) (List.length (cn_path b))) as [He|Hne].
    + intros H. left. destruct (isEqual_spec (cn_path a) (cn_path b)); congruence.
    + destruct (Nat.ltb_spec (List.length (cn_path a)) (List.length (cn_path b))) as [Hlt|Hge].
      * intros H. right. left. split; [exact Hlt|].
        destruct (isEqual_spec (cn_path a)
                    (firstn (List.length (cn_path a)) (cn_path b))); congruence.
      * intros H. right. right. split; [lia|].
        destruct (isEqual_spec (cn_path b)
                    (firstn (List.length (cn_path b)) (cn_path a))); congruence.
  - intros [He|[Hp|Hp]].
    + now apply samePathOrAncestor_same.
    + now apply samePathOrAncestor_prefix.
    + rewrite samePathOrAncestor_sym. now apply samePathOrAncestor_prefix.
Qed.

Section UniqMore.

Variable T : Type.
Variable comparator : T -> T -> bool.

Lemma baseUniq_from (array result : list T) (x : T) :
  In x (baseUniq comparator array result) -> In x result \/ In x array.
Proof.
  revert result. induction array as [|v rest IH]; intros result H; simpl in *.
  - now left.
  - destruct (arrayIncludesWith result v comparator).
    + destruct (IH _ H); auto.
    + destruct (IH _ H) as [Hin|Hin]; [|auto].
      apply in_app_or in Hin. destruct Hin as [Hin|[->|[]]]; auto.
Qed.

Lemma baseUniq_keeps (array result : list T) (x : T) :
  In x result -> In x (baseUniq comparator array result).
Proof.
  intros H. destruct (baseUniq_extends comparator array result) as [more ->].
  apply in_or_app. now left.
Qed.

Hypothesis comparator_refl : forall x, comparator x x = true.

Lemma baseUniq_covers (array result : list T) (c : T) :
  In c array ->
  exists k, In k (baseUniq comparator array result) /\ comparator c k = true.
Proof.
  revert result. induction array as [|v rest IH]; intros result H; [destruct H|].
  simpl. destruct H as [->|H].
  - destruct (arrayIncludesWith result c comparator) eqn:Hinc.
    + unfold arrayIncludesWith in Hinc. apply existsb_exists in Hinc.
      destruct Hinc as [seen [Hin Hc]]. exists seen. split; [|exact Hc].
      now apply baseUniq_keeps.
    + exists c. split; [|apply comparator_refl].
      apply baseUniq_keeps. apply in_or_app. right. now left.
  - destruct (arrayIncludesWith result v comparator); now apply IH.
Qed.

End UniqMore.

Section UniqFixed.

Variable T : Type.
Variable comparator : T -> T -> bool.

Lemma unmatched_prefix (l more : list T) :
  unmatched comparator (l ++ more) -> unmatched comparator l.
Proof.
  induction more as [|v more IH] using rev_ind; intros H.
  - now rewrite app_nil_r in H.
  - rewrite app_assoc in H. inversion H as [Hnil|l' v' Hl Hv Heq].
    + destruct (l ++ more); discriminate.
    + apply app_inj_tail in Heq. destruct Heq as [-> ->]. now apply IH.
Qed.

Lemma unmatched_last (l : list T) (v : T) :
  unmatched comparator (l ++ [v]) -> forall seen, In seen l -> comparator v seen = false.
Proof.
  intros H. inversion H as [Hnil|l' v' Hl Hv Heq].
  - destruct l; discriminate.
  - apply app_inj_tail in Heq. destruct Heq as [-> ->]. exact Hv.
Qed.

Lemma baseUniq_fixed (array result : list T) :
  unmatched comparator (result ++ array) ->
  baseUniq comparator array result = result ++ array.
Proof.
  revert result. induction array as [|v rest IH]; intros result H; simpl.
  - now rewrite app_nil_r.
  - assert (Hv : arrayIncludesWith result v comparator = false).
    { unfold arrayIncludesWith.
      destruct (existsb (fun seen => comparator v seen) result) eqn:Hex; [|reflexivity].
      apply existsb_exists in Hex. destruct Hex as [seen [Hin Hc]].
      change (v :: rest) with ([v] ++ rest) in H. rewrite app_assoc in H.
      apply unmatched_prefix in H.
      rewrite (@unmatched_last _ _ H seen Hin) in Hc. discriminate. }
    rewrite Hv, IH; rewrite <- app_assoc; [reflexivity | exact H].
Qed.

End UniqFixed.

(** X5. The records that survive the collapse are records of the input,
    and no two of them have related paths: the ranges that are patched never
    belong to the same node, nor to a node and one of its ancestors. *)
Theorem survivors_are_unrelated (changed : list ChangedNode) :
  (forall c, In c (collapsedChanges changed) -> In c changed) /\
  (forall i j x y,
     i <> j ->
     nth_error (collapsedChanges changed) i = Some x ->
     nth_error (collapsedChanges changed) j = Some y ->
     ~ related (cn_path x) (cn_path y)).
Proof.
  split.
  - intros c H. apply baseUniq_from in H. destruct H as [[]|H]. exact H.
  - intros i j x y Hij Hx Hy Hrel.
    destruct (collapsedChanges_unrelated changed Hij Hx Hy) as [Hne [Hp Hq]].
    destruct Hrel as [He|[Hr|Hr]]; auto.
Qed.

(** X6. Every record of the input is accounted for by a survivor with a
    related path: its own node is patched, or an ancestor of it, or a node
    below it. *)
Theorem every_record_has_a_related_survivor (changed : list ChangedNode) (c : ChangedNode) :
  In c changed ->
  exists k, In k (collapsedChanges changed) /\ related (cn_path c) (cn_path k).
Proof.
  intros H.
  destruct (@baseUniq_covers _ samePathOrAncestor
              (fun x => samePathOrAncestor_same x x eq_refl) changed [] c H) as [k [Hin Hc]].
  exists k. split; [exact Hin|]. now apply samePathOrAncestor_related.
Qed.

(** X6 on the sample records: the paragraph's record is dropped, the record
    of its text stands for it. *)
Lemma related_survivor_witness :
  exists k,
    In k (collapsedChanges [Sample.textRecord; Sample.paragraphRecord]) /\
    related (cn_path Sample.paragraphRecord) (cn_path k).
Proof.
  apply (@every_record_has_a_related_survivor
           [Sample.textRecord; Sample.paragraphRecord] Sample.paragraphRecord).
  simpl. right. left. reflexivity.
Defined.

(** X7. Collapsing is idempotent: a second pass over the survivors drops
    nothing and keeps their order. *)
Theorem collapse_is_idempotent (changed : list ChangedNode) :
  collapsedChanges (collapsedChanges changed) = collapsedChanges changed.
Proof.
  unfold collapsedChanges at 1. unfold uniqWith.
  apply (@baseUniq_fixed _ samePathOrAncestor (collapsedChanges changed) []).
  simpl. apply baseUniq_unmatched. constructor.
Qed.

(** ** The marker comment and the text of a script host *)

Lemma prefix_nil (s : string) : String.prefix "" s = true.
Proof. destruct s; reflexivity. Qed.

Lemma replaceMarkerFrom_step (c : ascii) (s : string) :
  replaceMarkerFrom 0 (String c s) =
  match markerAt (String c s) with
  | Some n => String (ascii_of_nat 10) (replaceMarkerFrom (n - 1) s)
  | None => String c (replaceMarkerFrom 0 s)
  end.
Proof. reflexivity. Qed.

Lemma replaceMarkerFrom_skip (k : nat) :
  forall s, replaceMarkerFrom k s = replaceMarkerFrom 0 (Text.dropN k s).
Proof.
  induction k as [|k IH]; intros s.
  - destruct s; reflexivity.
  - destruct s as [|c s]; [reflexivity|]. simpl Text.dropN. rewrite <- IH. reflexivity.
Qed.

Lemma dropN_add (a b : nat) :
  forall s, Text.dropN (a + b) s = Text.dropN b (Text.dropN a s).
Proof.
  induction a as [|a IH]; intros s; simpl.
  - reflexivity.
  - destruct s as [|c s]; [destruct b; reflexivity | apply IH].
Qed.

Lemma dropN_newlines (n : nat) (rest : string) :
  Text.dropN n (Text.repeat Text.newline n ++ rest)%string = rest.
Proof. induction n as [|n IH]; simpl; [reflexivity | exact IH]. Qed.

Lemma startsWith_one (a c : ascii) (s : string) :
  Text.startsWith (String c s) (String a EmptyString) = Ascii.eqb a c.
Proof.
  unfold Text.startsWith. simpl.
  destruct (ascii_dec a c) as [->|Hne].
  - rewrite Ascii.eqb_refl. apply prefix_nil.
  - destruct (Ascii.eqb_spec a c); [contradiction | reflexivity].
Qed.

Lemma startsWith_newline (s : string) :
  Text.startsWith s Text.newline = true ->
  exists s', s = String (ascii_of_nat 10) s'.
Proof.
  unfold Text.newline. destruct s as [|c s]; [discriminate|].
  rewrite startsWith_one. intros H. apply Ascii.eqb_eq in H. subst c. now exists s.
Qed.

Lemma leadingNewlines_repeat (n : nat) (rest : string) :
  Text.startsWith rest Text.newline = false ->
  leadingNewlines (Text.repeat Text.newline n ++ rest)%string = n.
Proof.
  intros Hrest. induction n as [|n IH].
  - destruct rest as [|c rest]; [reflexivity|].
    unfold Text.newline in Hrest. rewrite startsWith_one in Hrest.
    change (Text.repeat Text.newline 0 ++ String c rest)%string with (String c rest).
    cbn [leadingNewlines]. rewrite Ascii.eqb_sym, Hrest. reflexivity.
  - change (Text.repeat Text.newline (S n) ++ rest)%string
      with (String (ascii_of_nat 10) (Text.repeat Text.newline n ++ rest)%string).
    cbn [leadingNewlines]. rewrite Ascii.eqb_refl, IH. reflexivity.
Qed.

(** X8. A printed script in which the marker comment does not occur goes
    into its host as it is: the replacement changes no character. *)
Theorem replaceMarker_without_marker (s : string) :
  Text.includes s METAMORPH_START = false -> replaceMarker s = s.
Proof.
  unfold replaceMarker. induction s as [|c s IH]; intros H; [reflexivity|].
  change (Text.includes (String c s) METAMORPH_START)
    with (Text.startsWith (String c s) METAMORPH_START || Text.includes s METAMORPH_START) in H.
  apply orb_false_iff in H. destruct H as [Hhere Hlater].
  rewrite replaceMarkerFrom_step. unfold markerAt. rewrite Hhere.
  now rewrite IH.
Qed.

Lemma replaceMarker_without_marker_witness :
  Text.includes "let a" METAMORPH_START = false /\ replaceMarker "let a" = "let a".
Proof.
  split; [reflexivity|]. apply (replaceMarker_without_marker "let a"). reflexivity.
Defined.

(** X9. At the head of a printed script, the marker comment with all the
    newlines that follow it, one or more, is replaced by exactly one newline,
    and the replacement goes on with the text after them. *)
Theorem replaceMarker_at_head (n : nat) (rest : string) :
  Text.startsWith rest Text.newline = false ->
  replaceMarker (METAMORPH_START ++ Text.repeat Text.newline (S n) ++ rest)%string
  = (Text.newline ++ replaceMarker rest)%string.
Proof.
  intros Hrest. unfold replaceMarker.
  set (tail := (Text.repeat Text.newline (S n) ++ rest)%string).
  assert (Hat : markerAt (METAMORPH_START ++ tail)%string
                = Some (String.length METAMORPH_START + S n)).
  { unfold markerAt.
    assert (Hpre : Text.startsWith (METAMORPH_START ++ tail)%string METAMORPH_START = true).
    { reflexivity. }
    rewrite Hpre.
    change (Text.dropN (String.length METAMORPH_START) (METAMORPH_START ++ tail)%string)
      with tail.
    unfold tail. now rewrite leadingNewlines_repeat. }
  change (METAMORPH_START ++ tail)%string
    with (String "/" (Text.dropN 1 (METAMORPH_START ++ tail)%string)) in *.
  rewrite replaceMarkerFrom_step, Hat.
  rewrite replaceMarkerFrom_skip.
  replace (String.length METAMORPH_START + S n - 1)
    with ((String.length METAMORPH_START - 1) + S n) by (simpl; lia).
  rewrite dropN_add.
  change (Text.dropN (String.length METAMORPH_START - 1)
            (Text.dropN 1 (METAMORPH_START ++ tail)%string)) with tail.
  unfold tail. rewrite dropN_newlines. reflexivity.
Qed.

Lemma replaceMarker_at_head_witness :
  replaceMarker (METAMORPH_START ++ Text.repeat Text.newline 3 ++ "let a")%string
  = (Text.newline ++ replaceMarker "let a")%string.
Proof.
  apply (@replaceMarker_at_head 2 "let a"). reflexivity.
Defined.

Lemma prefix_append (p b : string) : String.prefix p (p ++ b)%string = true.
Proof.
  induction p as [|c p IH]; simpl; [apply prefix_nil|].
  destruct (ascii_dec c c) as [_|Hne]; [exact IH | now elim Hne].
Qed.

Lemma includes_startsWith (s p : string) :
  Text.startsWith s p = true -> Text.includes s p = true.
Proof. intros H. destruct s; cbn [Text.includes]; rewrite H; reflexivity. Qed.

Lemma includes_middle (a p b : string) : Text.includes (a ++ p ++ b)%string p = true.
Proof.
  apply includes_append. apply includes_startsWith. apply prefix_append.
Qed.

(** X10. The text a script host gets is the printed code between
    newlines, where the newline in front is the code's own when it has one:
    a code that starts with a newline gets one newline appended and nothing
    put before it, any other code gets one newline before and one after.
    Either way the text starts and ends with a newline and holds the printed
    code unchanged in between. *)
Theorem scriptText_is_framed (newCode : string) :
  (Text.startsWith newCode Text.newline = true ->
   scriptText newCode = (newCode ++ Text.newline)%string) /\
  (Text.startsWith newCode Text.newline = false ->
   scriptText newCode = (Text.newline ++ newCode ++ Text.newline)%string) /\
  Text.startsWith (scriptText newCode) Text.newline = true /\
  Text.endsWith (scriptText newCode) Text.newline = true /\
  Text.includes (scriptText newCode) newCode = true /\
  String.length (scriptText newCode) =
    String.length newCode + (if Text.startsWith newCode Text.newline then 1 else 2).
Proof.
  unfold scriptText.
  destruct (Text.startsWith newCode Text.newline) eqn:Hstart.
  - split; [reflexivity|]. split; [discriminate|]. split; [|split; [|split]].
    + destruct (startsWith_newline newCode Hstart) as [s' ->].
      cbn [append]. unfold Text.newline. rewrite startsWith_one. apply Ascii.eqb_refl.
    + cbn [append]. apply TextFacts.endsWith_append.
    + apply includes_middle.
    + cbn [append]. rewrite TextFacts.length_append. simpl. lia.
  - split; [discriminate|]. split; [reflexivity|]. split; [|split; [|split]].
    + unfold Text.newline at 1 3. cbn [append].
      rewrite startsWith_one. apply Ascii.eqb_refl.
    + rewrite <- TextFacts.append_assoc. apply TextFacts.endsWith_append.
    + apply includes_middle.
    + rewrite !TextFacts.length_append. simpl. lia.
Qed.

(** X10 on a printed code that starts with a newline, and on one that does
    not. *)
Example scriptText_samples :
  scriptText (Text.newline ++ "let a") = (Text.newline ++ "let a" ++ Text.newline)%string /\
  scriptText "let a" = (Text.newline ++ "let a" ++ Text.newline)%string.
Proof. split; reflexivity. Qed.

(** ** Parsing a component *)

(** X11. The text that reaches the Vue parser always contains
    ['<template']; a text that already contains it is handed over unchanged,
    and preparing a prepared text changes nothing: the template is appended
    at most once. *)
Theorem vueSource_has_template (src : string) :
  Text.includes (vueSource src) templateTag = true /\
  (Text.includes src templateTag = true -> vueSource src = src) /\
  vueSource (vueSource src) = vueSource src.
Proof.
  assert (Hhas : Text.includes (vueSource src) templateTag = true).
  { unfold vueSource. destruct (Text.includes src templateTag) eqn:H; cbn [negb]; [exact H|].
    apply includes_append. reflexivity. }
  split; [exact Hhas|]. split.
  - intros H. unfold vueSource. now rewrite H.
  - unfold vueSource at 1. now rewrite Hhas.
Qed.

Lemma vueSource_has_template_witness :
  Text.includes (vueSource Sample.scriptOnly) templateTag = true /\
  vueSource Sample.source = Sample.source /\
  vueSource (vueSource Sample.scriptOnly) = vueSource Sample.scriptOnly.
Proof.
  destruct (vueSource_has_template Sample.scriptOnly) as [Hhas [_ Hidem]].
  destruct (vueSource_has_template Sample.source) as [_ [Hsame _]].
  split; [exact Hhas|]. split; [|exact Hidem].
  apply Hsame. reflexivity.
Defined.

Section ParseFacts.

Context {X : Externals}.

Lemma mapM_Forall2 (A B : Type) (f : A -> outcome B) (xs : list A) :
  forall ys, mapM f xs = Ok ys <-> Forall2 (fun x y => f x = Ok y) xs ys.
Proof.
  induction xs as [|x xs IH]; intros ys; simpl.
  - split; intros H; [inversion H; constructor | inversion H; reflexivity].
  - split.
    + intros H. apply bind_Ok_inv in H. destruct H as [y [Hy H]].
      apply bind_Ok_inv in H. destruct H as [ys' [Hys H]].
      inversion H; subst. constructor; [exact Hy | now apply IH].
    + intros H. inversion H as [|? y ? ys' Hy Hys]; subst.
      rewrite Hy. simpl. apply IH in Hys. rewrite Hys. reflexivity.
Qed.

(** X12. [parseVue] returns exactly when the Vue parser returns a tree
    with a template body for the prepared text and every [script] element
    found under the document fragment parses; the result then holds that
    tree and one script tree per element, in the order [findAll] gave them,
    each parsed from the prepared text. *)
Theorem parseVue_returns_iff (src : string) (parsed : ParsedVue) :
  parseVue src = Ok parsed <->
  vueParser_parse (vueSource src) = Ok (vueAst parsed) /\
  exists body,
    templateBody (vueAst parsed) = Some body /\
    Forall2 (fun el ast => parseScript (vueSource src) el = Ok ast)
      (findAll (tb_parent body) [("type", VStr "VElement"); ("name", VStr "script")])
      (scriptAsts parsed).
Proof.
  unfold parseVue. split.
  - intros H. apply bind_Ok_inv in H. destruct H as [ast [Hast H]].
    destruct (templateBody ast) as [body|] eqn:Hbody; [|discriminate].
    apply bind_Ok_inv in H. destruct H as [asts [Hasts H]].
    inversion H; subst. simpl. split; [exact Hast|].
    exists body. split; [exact Hbody|]. now apply mapM_Forall2.
  - intros [Hast [body [Hbody Hall]]]. rewrite Hast. simpl. rewrite Hbody.
    apply mapM_Forall2 in Hall. rewrite Hall. simpl. destruct parsed; reflexivity.
Qed.

Lemma member_not_nullish (o : value) (k : seg) :
  nullish (member o k) = false -> nullish o = false.
Proof. destruct o; simpl; congruence. Qed.

Lemma read_member (o : value) (k : seg) :
  nullish o = false -> read o k = Ok (member o k).
Proof. intros H. unfold read. now rewrite H. Qed.

Lemma blankLinesBefore_line (line : Z) :
  (1 <= line)%Z ->
  blankLinesBefore (VNum line) = Ok (Text.repeat Text.newline (Z.to_nat (line - 1))).
Proof.
  intros H. unfold blankLinesBefore.
  destruct (Z.ltb_spec (line - 1) 0); [lia | reflexivity].
Qed.

Lemma takeUnits_all (s : string) : takeUnits (unitLength s) s = s.
Proof.
  induction s as [|c s IH]; [reflexivity|].
  cbn [takeUnits unitLength]. destruct (unitsOf c) as [|u] eqn:Hu.
  - cbn [Nat.add]. now rewrite IH.
  - destruct (Nat.leb_spec (S u) (S u + unitLength s)) as [_|Hbad]; [|lia].
    replace (S u + unitLength s - S u) with (unitLength s) by lia. now rewrite IH.
Qed.

Lemma dropUnits_none (s : string) : dropUnits 0 s = s.
Proof. destruct s; reflexivity. Qed.

Lemma slice_whole (s : string) : slice s VUndefined VUndefined = s.
Proof.
  unfold slice, sliceIndex, clampIndex, unitSubstring.
  destruct (Z.ltb_spec 0 0); [lia|].
  destruct (Z.ltb_spec (Z.of_nat (unitLength s)) 0); [lia|].
  rewrite !Z.min_l by lia. rewrite Z.sub_0_r. simpl Z.to_nat.
  rewrite Nat2Z.id, dropUnits_none. apply takeUnits_all.
Qed.

Lemma slice_range (s : string) (from to : Z) :
  (0 <= from <= to)%Z -> (to <= Z.of_nat (unitLength s))%Z ->
  slice s (VNum from) (VNum to) = unitSubstring (Z.to_nat from) (Z.to_nat (to - from)) s.
Proof.
  intros Hft Hlen. unfold slice, sliceIndex, clampIndex.
  destruct (Z.ltb_spec from 0); [lia|]. destruct (Z.ltb_spec to 0); [lia|].
  rewrite !Z.min_l by lia. reflexivity.
Qed.

(** X13. A [script] element without children, an empty [<script></script>]
    or a self-closing one, has no first child to take a range from: both
    bounds of the slice are [undefined], and what is parsed as the script is
    the blank lines followed by the text of the whole component. *)
Theorem parseScript_without_children (src : string) (el : value) (line : Z) :
  member (member (member el (Key "loc")) (Key "start")) (Key "line") = VNum line ->
  (1 <= line)%Z ->
  member el (Key "children") = VArr [] ->
  parseScript src el =
  recast_parse (Text.repeat Text.newline (Z.to_nat (line - 1)) ++ src)%string.
Proof.
  intros Hline Hpos Hchildren. unfold parseScript.
  assert (Hstart : nullish (member (member el (Key "loc")) (Key "start")) = false).
  { apply member_not_nullish with (k := Key "line"). now rewrite Hline. }
  assert (Hloc : nullish (member el (Key "loc")) = false).
  { now apply member_not_nullish with (k := Key "start"). }
  assert (Hel : nullish el = false).
  { now apply member_not_nullish with (k := Key "loc"). }
  rewrite read_member by exact Hel. simpl bind.
  rewrite read_member by exact Hloc. simpl bind.
  rewrite read_member by exact Hstart. simpl bind.
  rewrite Hline, (blankLinesBefore_line Hpos). simpl bind.
  rewrite read_member by exact Hel. rewrite Hchildren. simpl.
  now rewrite slice_whole.
Qed.

(** X14. A [script] element whose first child carries a range within the
    text, counted in UTF-16 code units as the parser counts it, is parsed
    from the code units of that range alone, put after one newline for each
    line above the element's start line, so that the lines of the script tree
    count as the lines of the component do. *)
Theorem parseScript_of_first_child (src : string) (el : value) (line from to : Z) :
  member (member (member el (Key "loc")) (Key "start")) (Key "line") = VNum line ->
  (1 <= line)%Z ->
  member (member (firstChild el) (Key "range")) (Idx 0) = VNum from ->
  member (member (firstChild el) (Key "range")) (Idx 1) = VNum to ->
  (0 <= from <= to)%Z ->
  (to <= Z.of_nat (unitLength src))%Z ->
  parseScript src el =
  recast_parse (Text.repeat Text.newline (Z.to_nat (line - 1)) ++
                unitSubstring (Z.to_nat from) (Z.to_nat (to - from)) src)%string.
Proof.
  intros Hline Hpos Hfrom Hto Hft Hlen. unfold parseScript.
  assert (Hstart : nullish (member (member el (Key "loc")) (Key "start")) = false).
  { apply member_not_nullish with (k := Key "line"). now rewrite Hline. }
  assert (Hloc : nullish (member el (Key "loc")) = false).
  { now apply member_not_nullish with (k := Key "start"). }
  assert (Hel : nullish el = false).
  { now apply member_not_nullish with (k := Key "loc"). }
  assert (Hrange : nullish (member (firstChild el) (Key "range")) = false).
  { apply member_not_nullish with (k := Idx 0). now rewrite Hfrom. }
  assert (Hfirst : nullish (firstChild el) = false).
  { now apply member_not_nullish with (k := Key "range"). }
  assert (Hchildren : nullish (member el (Key "children")) = false).
  { now apply member_not_nullish with (k := Idx 0). }
  rewrite read_member by exact Hel. simpl bind.
  rewrite read_member by exact Hloc. simpl bind.
  rewrite read_member by exact Hstart. simpl bind.
  rewrite Hline, (blankLinesBefore_line Hpos). simpl bind.
  rewrite read_member by exact Hel. simpl bind.
  rewrite read_member by exact Hchildren. simpl bind.
  fold (firstChild el). rewrite Hfirst.
  rewrite read_member by exact Hfirst. simpl bind.
  rewrite read_member by exact Hrange. simpl bind.
  rewrite Hfrom. simpl bind.
  rewrite read_member by exact Hrange. simpl bind.
  rewrite Hto. now rewrite slice_range.
Qed.

End ParseFacts.

(** X12 on the sample component: one script element, one script tree. *)
Lemma parseVue_returns_witness :
  parseVue (X := Sample.externals) Sample.source = Ok Sample.parsedSource.
Proof.
  apply (proj2 (@parseVue_returns_iff Sample.externals Sample.source Sample.parsedSource)).
  split; [reflexivity|].
  exists {| tb_parent := Sample.document |}. split; [reflexivity|].
  repeat constructor.
Defined.

(** X13 on an empty script element on the second line of the sample
    component: the whole component is parsed as its script. *)
Lemma parseScript_without_children_witness :
  parseScript (X := Sample.externals) Sample.source
    (Sample.parsedElement "script" 31 48 2 [] Sample.endTagV)
  = recast_parse (Externals := Sample.externals)
      (Text.repeat Text.newline 1 ++ Sample.source)%string.
Proof.
  apply (@parseScript_without_children Sample.externals Sample.source
           (Sample.parsedElement "script" 31 48 2 [] Sample.endTagV) 2).
  - reflexivity.
  - lia.
  - reflexivity.
Defined.

(** X14 on a text that starts with the euro sign, three bytes and one code
    unit: the range from unit 1 to unit 3 is the two letters after it. *)
Lemma parseScript_of_first_child_witness :
  parseScript (X := Sample.externals) Sample.priced
    (Sample.parsedElement "script" 0 3 1 [Sample.parsedText 1 3 "xy"] Sample.endTagV)
  = recast_parse (Externals := Sample.externals)
      (Text.repeat Text.newline 0 ++ unitSubstring 1 2 Sample.priced)%string /\
  unitSubstring 1 2 Sample.priced = "xy".
Proof.
  split; [|reflexivity].
  apply (@parseScript_of_first_child Sample.externals Sample.priced
           (Sample.parsedElement "script" 0 3 1 [Sample.parsedText 1 3 "xy"] Sample.endTagV)
           1 1 3).
  - reflexivity.
  - lia.
  - reflexivity.
  - reflexivity.
  - lia.
  - simpl. lia.
Defined.

(** ** What the diff reports *)

Lemma entryPath_keepPath (c : change) (p : path) :
  change_path c = keepPath p -> entryPath c = p.
Proof. unfold entryPath. intros ->. destruct p; reflexivity. Qed.

Lemma extraItems_paths (mk : value -> change) (p : path) (xs : list value) :
  forall start c, In c (extraItems mk p start xs) -> change_path c = keepPath p.
Proof.
  induction xs as [|x xs IH]; simpl; intros start c H; [destruct H|].
  apply in_app_or in H. destruct H as [H|[<-|[]]]; [eapply IH; eauto | reflexivity].
Qed.

Lemma compared_snoc (p : path) (k : seg) :
  compared p -> ignored p k = false -> compared (p ++ [k]).
Proof.
  intros Hp Hk. apply Forall_app. split; [exact Hp|]. constructor; [|constructor].
  unfold ignored in Hk. apply orb_false_iff in Hk. exact (proj1 Hk).
Qed.

Lemma deepDiffRec_paths (a : value) :
  forall (b : value) (p : path) (c : change),
    compared p -> In c (deepDiffRec ignored p a b) -> compared (entryPath c).
Proof.
  induction a as [| |x|n|s|xs IH|fs IH] using value_induction; intros b p c Hp Hin.
  1-5: destruct b; simpl in Hin;
       repeat match goal with
              | H : In _ (if ?t then _ else _) |- _ => destruct t
              | H : In _ [] |- _ => destruct H
              | H : False |- _ => destruct H
              | H : _ \/ False |- _ => destruct H as [<-|[]]
              | H : In _ [_] |- _ => destruct H as [<-|[]]
              end;
       rewrite (@entryPath_keepPath _ p) by reflexivity; exact Hp.
  - destruct b as [| | | | |rs|];
      try (simpl in Hin; destruct Hin as [<-|[]];
           rewrite (@entryPath_keepPath _ p) by reflexivity; exact Hp).
    cbn [deepDiffRec realTypeOf realType_eqb negb] in Hin.
    apply in_app_or in Hin. destruct Hin as [Hin|Hin].
    { apply extraItems_paths in Hin. now rewrite (@entryPath_keepPath _ p Hin). }
    apply in_app_or in Hin. destruct Hin as [Hin|Hin].
    { apply extraItems_paths in Hin. now rewrite (@entryPath_keepPath _ p Hin). }
    revert Hin. generalize 0 as i. revert rs.
    induction IH as [|x xs Hx _ IHxs]; intros [|r rs] i Hin; try destruct Hin.
    apply in_app_or in Hin. destruct Hin as [Hin|Hin]; [now apply (IHxs rs (S i))|].
    destruct (ignored p (Idx i)) eqn:Hig; [destruct Hin|].
    apply (Hx r (p ++ [Idx i])); [now apply compared_snoc | exact Hin].
  - destruct b as [| | | | | |rf];
      try (simpl in Hin; destruct Hin as [<-|[]];
           rewrite (@entryPath_keepPath _ p) by reflexivity; exact Hp).
    cbn [deepDiffRec realTypeOf realType_eqb negb] in Hin.
    apply in_app_or in Hin. destruct Hin as [Hin|Hin].
    + induction IH as [|[k v] fs' Hv _ IHfs]; [destruct Hin|].
      apply in_app_or in Hin. destruct Hin as [Hin|Hin]; [|now apply IHfs].
      destruct (ignored p (Key k)) eqn:Hig; [destruct Hin|].
      destruct (lookup k rf) as [v'|].
      * apply (Hv v' (p ++ [Key k])); [now apply compared_snoc | exact Hin].
      * destruct Hin as [<-|[]].
        rewrite (@entryPath_keepPath _ (p ++ [Key k])) by reflexivity. now apply compared_snoc.
    + apply in_flat_map in Hin. destruct Hin as [[k v'] [_ Hin]].
      destruct (existsb (String.eqb k) (keys fs)); [destruct Hin|].
      destruct (String.eqb k ""); [destruct Hin|].
      destruct (ignored p (Key k)) eqn:Hig; [destruct Hin|].
      destruct Hin as [<-|[]].
      rewrite (@entryPath_keepPath _ (p ++ [Key k])) by reflexivity. now apply compared_snoc.
Qed.

(** X15. No entry of the template diff has a path through a bookkeeping
    property: a change of a [parent], [loc], [range] or [variables] property,
    or of anything below one, is never reported, at any depth. *)
Theorem diff_never_reports_bookkeeping (originalTemplate templateAst : value) (c : change) :
  In c (templateDiff originalTemplate templateAst) ->
  forall k, In k (entryPath c) -> bookkeeping (keyName k) = false.
Proof.
  intros Hin.
  assert (Hc : compared (entryPath c)).
  { unfold templateDiff, deepDiff in Hin.
    destruct originalTemplate, templateAst;
      try (destruct Hin as [<-|[]]; constructor);
      try (apply deepDiffRec_paths in Hin; [exact Hin | constructor]).
    destruct Hin. }
  intros k Hk. unfold compared in Hc. rewrite Forall_forall in Hc. now apply Hc.
Qed.

(** X15 on the sample: the text of the paragraph is rewritten. *)
Lemma diff_never_reports_bookkeeping_witness :
  Forall (fun k => bookkeeping (keyName k) = false) (Sample.pathToText ++ [Key "value"]).
Proof.
  apply Forall_forall.
  apply (@diff_never_reports_bookkeeping Sample.document
           (Sample.assignAt (Sample.pathToText ++ [Key "value"]) (VStr "yo") Sample.document)
           (DiffEdit (Some (Sample.pathToText ++ [Key "value"])) (VStr "hi") (VStr "yo"))).
  vm_compute. left. reflexivity.
Defined.

(** ** One property changed *)

Lemma decimal_is_no_name (u : Decimal.uint) (name : string) :
  NilZero.uint_of_string name = None ->
  String.eqb (NilZero.string_of_uint u) name = false.
Proof.
  intros H. destruct (String.eqb_spec (NilZero.string_of_uint u) name) as [He|]; [|reflexivity].
  destruct (NilZero.usu_gen u) as [Hu|Hu]; rewrite He in Hu; congruence.
Qed.

(** An array index is never filtered out. *)
Lemma ignored_index (p : path) (i : nat) : ignored p (Idx i) = false.
Proof.
  unfold ignored, ignoreProperties, objectPrototypeKeys. cbn [existsb keyName].
  rewrite !decimal_is_no_name by reflexivity. reflexivity.
Qed.

Lemma deepDiffRec_self (a : value) (p : path) :
  wf_value a = true -> deepDiffRec ignored p a a = [].
Proof. intros H. now apply deepDiffRec_same_content. Qed.

Lemma lookup_setField_same (k : string) (v : value) (fs : fields) :
  lookup k (setField k v fs) = Some v.
Proof.
  induction fs as [|[k' y] fs IH]; simpl.
  - now rewrite String.eqb_refl.
  - destruct (String.eqb_spec k' k) as [->|Hne]; simpl.
    + now rewrite String.eqb_refl.
    + destruct (String.eqb_spec k' k); [contradiction | exact IH].
Qed.

Lemma lookup_setField_other (k j : string) (v : value) (fs : fields) :
  j <> k -> lookup j (setField k v fs) = lookup j fs.
Proof.
  intros Hjk. induction fs as [|[k' y] fs IH]; simpl.
  - destruct (String.eqb_spec k j); [congruence | reflexivity].
  - destruct (String.eqb_spec k' k) as [->|Hne]; simpl.
    + destruct (String.eqb_spec k j); [congruence | reflexivity].
    + now rewrite IH.
Qed.

Lemma keys_setField (k : string) (v x : value) (fs : fields) :
  lookup k fs = Some x -> keys (setField k v fs) = keys fs.
Proof.
  induction fs as [|[k' y] fs IH]; simpl; [discriminate|].
  destruct (String.eqb_spec k' k) as [->|Hne]; simpl; [reflexivity|].
  intros H. now rewrite IH.
Qed.

Lemma setItem_inside (i : nat) (v : value) (xs : list value) :
  i < List.length xs -> setItem i v xs = firstn i xs ++ v :: skipn (S i) xs.
Proof.
  intros Hlt. unfold setItem.
  replace (i - List.length xs) with 0 by lia. simpl. now rewrite app_nil_r.
Qed.

Lemma deepDiffRec_leaves (p : path) (old new : value) :
  isLeaf old = true -> isLeaf new = true -> same_primitive old new = false ->
  deepDiffRec ignored p old new = [DiffEdit (keepPath p) old new].
Proof.
  intros Ho Hn Hs.
  destruct old, new; try discriminate; simpl in *; try reflexivity; now rewrite Hs.
Qed.

Lemma deepDiffRec_single (q : path) :
  forall (a : value) (p : path) (old new : value),
    wf_value a = true -> leafAt a q = Some old ->
    isLeaf new = true -> same_primitive old new = false ->
    deepDiffRec ignored p a (setAt q new a) = [DiffEdit (keepPath (p ++ q)) old new].
Proof.
  induction q as [|k rest IH]; intros a p old new Hwf Hleaf Hnew Hdiff.
  - simpl in Hleaf. destruct (isLeaf a) eqn:Ha; [|discriminate].
    inversion Hleaf; subst. rewrite app_nil_r. now apply deepDiffRec_leaves.
  - destruct k as [k|i].
    + (* a property of an object *)
      destruct a as [| | | | | |fs]; try discriminate.
      cbn [leafAt] in Hleaf.
      destruct (ignored [] (Key k)) eqn:Hig; [discriminate|].
      destruct (lookup k fs) as [child|] eqn:Hchild; [|discriminate].
      apply wf_obj_fields in Hwf. destruct Hwf as [Hdist Hall].
      assert (Hwc : wf_value child = true).
      { rewrite Forall_forall in Hall. exact (Hall _ (lookup_found _ _ Hchild)). }
      assert (HD : deepDiffRec ignored (p ++ [Key k]) child (setAt rest new child)
                   = [DiffEdit (keepPath (p ++ Key k :: rest)) old new]).
      { rewrite (IH child (p ++ [Key k]) old new Hwc Hleaf Hnew Hdiff).
        now rewrite <- app_assoc. }
      cbn [setAt assign member keyName]. rewrite Hchild.
      set (child' := setAt rest new child) in *.
      cbn [deepDiffRec realTypeOf realType_eqb negb].
      match goal with
      | |- ?loop fs ++ ?r = _ =>
          assert (Hl : forall l,
                    distinct (keys l) = true ->
                    Forall (fun kv => wf_value (snd kv) = true) l ->
                    (forall k0 v, In (k0, v) l -> lookup k0 fs = Some v) ->
                    loop l = if existsb (String.eqb k) (keys l)
                             then [DiffEdit (keepPath (p ++ Key k :: rest)) old new]
                             else []);
          [| assert (Hr : r = [])]
      end.
      * induction l as [|[k0 v] l IHl]; intros Hd Hw Hk; [reflexivity|].
        simpl in Hd. apply andb_true_iff in Hd. destruct Hd as [Hfresh Hd].
        apply negb_true_iff in Hfresh.
        inversion Hw as [|? ? Hv Hw']; subst. simpl in Hv.
        rewrite (IHl Hd Hw' (fun k1 v1 H1 => Hk k1 v1 (or_intror H1))).
        pose proof (Hk k0 v (or_introl eq_refl)) as Hv0.
        cbn [keys map fst existsb]. fold (keys l).
        destruct (String.eqb_spec k k0) as [<-|Hne].
        -- rewrite Hfresh. change (ignored p (Key k)) with (ignored [] (Key k)).
           rewrite Hig, lookup_setField_same.
           assert (v = child) by congruence. subst v.
           rewrite HD. reflexivity.
        -- cbn [orb]. rewrite lookup_setField_other by congruence.
           rewrite Hv0, (deepDiffRec_self _ _ Hv).
           destruct (ignored p (Key k0)); reflexivity.
      * apply flat_map_nil. intros [k0 v'] Hin.
        assert (Hex : existsb (String.eqb k0) (keys fs) = true).
        { rewrite <- (keys_setField k child' fs Hchild).
          apply existsb_keys. now exists v'. }
        now rewrite Hex.
      * rewrite Hr, app_nil_r, (Hl fs Hdist Hall (fun k0 v H0 => lookup_in fs k0 v Hdist H0)).
        assert (Hex : existsb (String.eqb k) (keys fs) = true).
        { apply existsb_keys. exists child. now apply lookup_found. }
        now rewrite Hex.
    + (* an element of an array *)
      destruct a as [| | | | |xs|]; try discriminate.
      cbn [leafAt] in Hleaf.
      destruct (nth_error xs i) as [child|] eqn:Hchild; [|discriminate].
      apply wf_arr_items in Hwf.
      assert (Hlt : i < List.length xs) by (apply nth_error_Some; congruence).
      assert (Hwc : wf_value child = true).
      { rewrite Forall_forall in Hwf. exact (Hwf _ (nth_error_In _ _ Hchild)). }
      assert (Hnth : nth i xs VUndefined = child) by now apply nth_error_nth.
      cbn [setAt assign member]. unfold arrayIndex. rewrite Hnth.
      set (child' := setAt rest new child) in *.
      rewrite setItem_inside by exact Hlt.
      cbn [deepDiffRec realTypeOf realType_eqb negb].
      assert (Hlen : List.length (firstn i xs ++ child' :: skipn (S i) xs) = List.length xs).
      { rewrite length_app, length_firstn. cbn [List.length]. rewrite length_skipn. lia. }
      rewrite Hlen. rewrite !skipn_all2 by lia. simpl extraItems. cbn [app].
      assert (Hsame : forall ys j, Forall (fun x => wf_value x = true) ys ->
                (fix loop (i0 : nat) (ls rs : list value) {struct ls} : list change :=
                   match ls, rs with
                   | l :: ls', r :: rs' =>
                       loop (S i0) ls' rs' ++
                       (if ignored p (Idx i0) then [] else deepDiffRec ignored (p ++ [Idx i0]) l r)
                   | _, _ => []
                   end) j ys ys = []).
      { induction ys as [|y ys IHys]; intros j Hw; [reflexivity|].
        inversion Hw; subst. rewrite IHys by assumption.
        rewrite deepDiffRec_self by assumption. destruct (ignored p (Idx j)); reflexivity. }
      assert (Hgen : forall ys i0 j, nth_error ys i0 = Some child ->
                Forall (fun x => wf_value x = true) ys ->
                (fix loop (i1 : nat) (ls rs : list value) {struct ls} : list change :=
                   match ls, rs with
                   | l :: ls', r :: rs' =>
                       loop (S i1) ls' rs' ++
                       (if ignored p (Idx i1) then [] else deepDiffRec ignored (p ++ [Idx i1]) l r)
                   | _, _ => []
                   end) j ys (firstn i0 ys ++ child' :: skipn (S i0) ys)
                = deepDiffRec ignored (p ++ [Idx (j + i0)]) child child').
      { induction ys as [|y ys IHys]; intros i0 j Hc Hw; [destruct i0; discriminate|].
        inversion Hw; subst.
        destruct i0 as [|i0]; simpl in Hc.
        - inversion Hc; subst. cbn [firstn skipn app].
          rewrite Hsame by assumption. cbn [app]. rewrite ignored_index.
          now rewrite Nat.add_0_r.
        - cbn [firstn skipn app]. rewrite IHys by assumption.
          rewrite deepDiffRec_self by assumption.
          replace (S j + i0) with (j + S i0) by lia.
          destruct (ignored p (Idx j)); now rewrite app_nil_r. }
      rewrite (Hgen xs i 0 Hchild Hwf). cbn [Nat.add].
      unfold child'. rewrite (IH child (p ++ [Idx i]) old new Hwc Hleaf Hnew Hdiff).
      now rewrite <- app_assoc.
Qed.

Lemma setAt_shape (k : seg) (rest : path) (new a old : value) :
  leafAt a (k :: rest) = Some old -> isLeaf (setAt (k :: rest) new a) = false /\ isLeaf a = false.
Proof.
  destruct k as [k|i]; destruct a; try discriminate; cbn [leafAt setAt assign]; intros H.
  - unfold arrayIndex. now split.
  - now split.
Qed.

(** At the root the comparison of two trees that are arrays or objects is
    the recursive one, from the empty path. *)
Lemma templateDiff_of_trees (a b : value) :
  isLeaf a = false -> isLeaf b = false ->
  templateDiff a b = deepDiffRec ignored [] a b.
Proof.
  intros Ha Hb. unfold templateDiff, deepDiff.
  destruct a; try discriminate; destruct b; try discriminate; reflexivity.
Qed.

(** X16. When the tree that reaches the diff is the snapshot with one leaf
    replaced by a different primitive, at a path through compared
    properties, the diff is exactly one Edit entry: it carries that path, the
    old leaf and the new one.  Nothing else is reported, whatever the
    bookkeeping of the tree. *)
Theorem single_edit_gives_one_entry (originalTemplate : value) (p : path) (old new : value) :
  wf_value originalTemplate = true ->
  leafAt originalTemplate p = Some old ->
  p <> [] ->
  isLeaf new = true ->
  same_primitive old new = false ->
  templateDiff originalTemplate (setAt p new originalTemplate) = [DiffEdit (Some p) old new].
Proof.
  intros Hwf Hleaf Hp Hnew Hdiff.
  destruct p as [|k rest]; [congruence|].
  destruct (setAt_shape k rest new originalTemplate Hleaf) as [Hafter Hbefore].
  rewrite (templateDiff_of_trees _ _ Hbefore Hafter).
  apply (@deepDiffRec_single (k :: rest) originalTemplate [] old new Hwf Hleaf Hnew Hdiff).
Qed.

Lemma single_edit_witness :
  templateDiff Sample.document
    (setAt (Sample.pathToText ++ [Key "value"]) (VStr "yo") Sample.document)
  = [DiffEdit (Some (Sample.pathToText ++ [Key "value"])) (VStr "hi") (VStr "yo")].
Proof.
  apply (@single_edit_gives_one_entry Sample.document
           (Sample.pathToText ++ [Key "value"]) (VStr "hi") (VStr "yo"));
    first [reflexivity | discriminate].
Defined.
Lemma isLeaf_content (v : value) : isLeaf (content v) = isLeaf v.
Proof. destruct v; reflexivity. Qed.

Lemma content_leaf (v : value) : isLeaf v = true -> content v = v.
Proof. destruct v; try discriminate; reflexivity. Qed.

Lemma content_eq_leaf (b new : value) : isLeaf new = true -> content b = new -> b = new.
Proof.
  intros Hnew Hb. assert (Hl : isLeaf b = true) by (rewrite <- isLeaf_content, Hb; exact Hnew).
  now rewrite <- Hb, content_leaf.
Qed.

Lemma in_setField (k : string) (v : value) (fs : fields) (k0 : string) (x : value) :
  In (k0, x) (setField k v fs) -> k0 = k \/ In (k0, x) fs.
Proof.
  induction fs as [|[k' y] fs IH]; simpl.
  - intros [H|[]]. inversion H. now left.
  - destruct (String.eqb_spec k' k) as [->|Hne]; simpl.
    + intros [H|H]; [inversion H; now left | right; now right].
    + intros [H|H]; [right; now left|]. destruct (IH H); [now left | right; now right].
Qed.

(** The comparison of a tree with any tree that has the content of the
    first one with one leaf replaced. *)
Lemma deepDiffRec_single_content (q : path) :
  forall (a b : value) (p : path) (old new : value),
    wf_value a = true -> wf_value b = true -> leafAt a q = Some old ->
    isLeaf new = true -> same_primitive old new = false ->
    content b = content (setAt q new a) ->
    deepDiffRec ignored p a b = [DiffEdit (keepPath (p ++ q)) old new].
Proof.
  induction q as [|k rest IH]; intros a b p old new Hwf Hwb Hleaf Hnew Hdiff Hcontent.
  - simpl in Hleaf. destruct (isLeaf a) eqn:Ha; [|discriminate].
    inversion Hleaf; subst. rewrite app_nil_r.
    cbn [setAt] in Hcontent. rewrite (content_leaf _ Hnew) in Hcontent.
    rewrite (@content_eq_leaf b new Hnew Hcontent). now apply deepDiffRec_leaves.
  - destruct k as [k|i].
    + (* a property of an object *)
      destruct a as [| | | | | |fs]; try discriminate.
      cbn [leafAt] in Hleaf.
      destruct (ignored [] (Key k)) eqn:Hig; [discriminate|].
      destruct (lookup k fs) as [child|] eqn:Hchild; [|discriminate].
      apply wf_obj_fields in Hwf. destruct Hwf as [Hdist Hall].
      assert (Hwc : wf_value child = true).
      { rewrite Forall_forall in Hall. exact (Hall _ (lookup_found _ _ Hchild)). }
      cbn [setAt assign member keyName] in Hcontent. rewrite Hchild in Hcontent.
      set (child' := setAt rest new child) in *.
      destruct b as [| | | | | |gs]; try discriminate.
      rewrite !content_obj in Hcontent. inversion Hcontent as [Hfields]. clear Hcontent.
      apply wf_obj_fields in Hwb. destruct Hwb as [Hdb Hwb].
      assert (Hfound : forall k0 v, In (k0, v) fs -> ignored [] (Key k0) = false ->
                exists v', lookup k0 gs = Some v' /\ wf_value v' = true /\
                           content v' = content (if String.eqb k k0 then child' else v)).
      { intros k0 v Hin Hig0. apply ignored_bookkeeping in Hig0.
        assert (Hs : In (k0, if String.eqb k k0 then child' else v) (setField k child' fs)).
        { apply lookup_found. destruct (String.eqb_spec k k0) as [<-|Hne].
          - apply lookup_setField_same.
          - rewrite lookup_setField_other by congruence. now apply lookup_in. }
        apply (fun H => in_contentFields _ _ _ H Hig0) in Hs.
        rewrite <- Hfields in Hs. apply contentFields_in in Hs.
        destruct Hs as [v' [Hv' [Hcv _]]].
        exists v'. repeat split.
        - now apply lookup_in.
        - rewrite Forall_forall in Hwb. exact (Hwb (k0, v') Hv').
        - exact Hcv. }
      cbn [deepDiffRec realTypeOf realType_eqb negb].
      match goal with
      | |- ?loop fs ++ ?r = _ =>
          assert (Hl : forall l,
                    distinct (keys l) = true ->
                    Forall (fun kv => wf_value (snd kv) = true) l ->
                    (forall k0 v, In (k0, v) l -> In (k0, v) fs) ->
                    loop l = if existsb (String.eqb k) (keys l)
                             then [DiffEdit (keepPath (p ++ Key k :: rest)) old new]
                             else []);
          [| assert (Hr : r = [])]
      end.
      * induction l as [|[k0 v] l IHl]; intros Hd Hw Hk; [reflexivity|].
        simpl in Hd. apply andb_true_iff in Hd. destruct Hd as [Hfresh Hd].
        apply negb_true_iff in Hfresh.
        inversion Hw as [|? ? Hv Hw']; subst. simpl in Hv.
        rewrite (IHl Hd Hw' (fun k1 v1 H1 => Hk k1 v1 (or_intror H1))).
        pose proof (Hk k0 v (or_introl eq_refl)) as Hv0.
        cbn [keys map fst existsb]. fold (keys l).
        change (ignored p (Key k0)) with (ignored [] (Key k0)).
        destruct (ignored [] (Key k0)) eqn:Hig0.
        -- destruct (String.eqb_spec k k0) as [<-|Hne]; [congruence|].
           reflexivity.
        -- destruct (Hfound k0 v Hv0 Hig0) as [v' [Hlook [Hwv' Hcv']]].
           rewrite Hlook.
           destruct (String.eqb_spec k k0) as [<-|Hne].
           ++ rewrite Hfresh.
              assert (v = child).
              { pose proof (lookup_in fs k v Hdist Hv0). congruence. }
              subst v.
              rewrite (IH child v' (p ++ [Key k]) old new Hwc Hwv' Hleaf Hnew Hdiff Hcv').
              now rewrite <- app_assoc.
           ++ cbn [orb]. symmetry in Hcv'.
              now rewrite deepDiffRec_same_content by assumption.
      * apply flat_map_nil. intros [k0 v'] Hin.
        destruct (existsb (String.eqb k0) (keys fs)) eqn:Hex; [reflexivity|].
        destruct (String.eqb k0 ""); [reflexivity|].
        destruct (ignored p (Key k0)) eqn:Hig0; [reflexivity|].
        apply ignored_bookkeeping in Hig0.
        assert (Hc : In (k0, content v') (contentFields (setField k child' fs))).
        { rewrite <- Hfields. now apply in_contentFields. }
        apply contentFields_in in Hc. destruct Hc as [x [Hx _]].
        assert (existsb (String.eqb k0) (keys fs) = true).
        { apply existsb_keys. apply in_setField in Hx. destruct Hx as [->|Hx].
          - exists child. now apply lookup_found.
          - now exists x. }
        congruence.
      * rewrite Hr, app_nil_r, (Hl fs Hdist Hall (fun k0 v H0 => H0)).
        assert (Hex : existsb (String.eqb k) (keys fs) = true).
        { apply existsb_keys. exists child. now apply lookup_found. }
        now rewrite Hex.
    + (* an element of an array *)
      destruct a as [| | | | |xs|]; try discriminate.
      cbn [leafAt] in Hleaf.
      destruct (nth_error xs i) as [child|] eqn:Hchild; [|discriminate].
      apply wf_arr_items in Hwf.
      assert (Hlt : i < List.length xs) by (apply nth_error_Some; congruence).
      assert (Hwc : wf_value child = true).
      { rewrite Forall_forall in Hwf. exact (Hwf _ (nth_error_In _ _ Hchild)). }
      assert (Hnth : nth i xs VUndefined = child) by now apply nth_error_nth.
      cbn [setAt assign member] in Hcontent. unfold arrayIndex in Hcontent.
      rewrite Hnth in Hcontent.
      set (child' := setAt rest new child) in *.
      rewrite setItem_inside in Hcontent by exact Hlt. clear Hnth.
      destruct b as [| | | | |ys|]; try discriminate.
      cbn [content] in Hcontent. inversion Hcontent as [Hmap]. clear Hcontent.
      change (match xs with [] => [] | _ :: l => skipn i l end)
        with (skipn (S i) xs) in Hmap.
      apply wf_arr_items in Hwb.
      cbn [deepDiffRec realTypeOf realType_eqb negb].
      assert (Hlen : List.length ys = List.length xs).
      { apply (f_equal (@List.length value)) in Hmap. rewrite !length_map in Hmap.
        rewrite Hmap, length_app, length_firstn. cbn [List.length].
        rewrite length_skipn. lia. }
      rewrite Hlen. rewrite !skipn_all2 by lia. simpl extraItems. cbn [app].
      assert (Hsame : forall ls rs j,
                Forall (fun x => wf_value x = true) ls ->
                Forall (fun x => wf_value x = true) rs ->
                map content rs = map content ls ->
                (fix loop (i0 : nat) (ls rs : list value) {struct ls} : list change :=
                   match ls, rs with
                   | l :: ls', r :: rs' =>
                       loop (S i0) ls' rs' ++
                       (if ignored p (Idx i0) then [] else deepDiffRec ignored (p ++ [Idx i0]) l r)
                   | _, _ => []
                   end) j ls rs = []).
      { induction ls as [|l ls IHls]; intros [|r rs] j Hwl Hwr Hm; try discriminate;
          [reflexivity|].
        inversion Hwl; subst. inversion Hwr; subst. inversion Hm.
        rewrite IHls by assumption.
        rewrite deepDiffRec_same_content by (try assumption; now symmetry).
        destruct (ignored p (Idx j)); reflexivity. }
      assert (Hgen : forall ls rs i0 j, nth_error ls i0 = Some child ->
                Forall (fun x => wf_value x = true) ls ->
                Forall (fun x => wf_value x = true) rs ->
                map content rs = map content (firstn i0 ls ++ child' :: skipn (S i0) ls) ->
                (fix loop (i1 : nat) (ls rs : list value) {struct ls} : list change :=
                   match ls, rs with
                   | l :: ls', r :: rs' =>
                       loop (S i1) ls' rs' ++
                       (if ignored p (Idx i1) then [] else deepDiffRec ignored (p ++ [Idx i1]) l r)
                   | _, _ => []
                   end) j ls rs
                = [DiffEdit (keepPath (p ++ Idx (j + i0) :: rest)) old new]).
      { induction ls as [|l ls IHls]; intros rs i0 j Hc Hwl Hwr Hm;
          [destruct i0; discriminate|].
        inversion Hwl; subst.
        destruct i0 as [|i0]; simpl in Hc.
        - injection Hc as Hc. subst l. cbn [firstn skipn app map] in Hm.
          destruct rs as [|r rs]; [discriminate|].
          inversion Hwr; subst. inversion Hm.
          rewrite Hsame by assumption. cbn [app]. rewrite ignored_index.
          rewrite Nat.add_0_r.
          rewrite (IH child r (p ++ [Idx j]) old new) by assumption.
          now rewrite <- app_assoc.
        - cbn [firstn skipn app map] in Hm.
          destruct rs as [|r rs]; [discriminate|].
          inversion Hwr; subst. inversion Hm.
          rewrite (IHls rs i0 (S j)) by assumption.
          rewrite deepDiffRec_same_content by (try assumption; now symmetry).
          replace (S j + i0) with (j + S i0) by lia.
          destruct (ignored p (Idx j)); now rewrite app_nil_r. }
      exact (Hgen xs ys i 0 Hchild Hwf Hwb Hmap).
Qed.

Section OneEdit.

Context {X : Externals} {M : MagicString}.

Lemma bind_ret (A : Type) (m : outcome A) : (x <- m ;; Ok x) = m.
Proof. destruct m; reflexivity. Qed.

Lemma leafAt_truthy (a : value) (k : seg) (rest : path) (old : value) :
  leafAt a (k :: rest) = Some old -> truthy a = true.
Proof. destruct k; destruct a; try discriminate; reflexivity. Qed.

Lemma patch_single (ms : buffer) (originalTemplate templateAst : value) (p : path)
    (old new s e : value) :
  nodePath (Some p) <> [] ->
  rangeOf (get originalTemplate (nodePath (Some p))) = Ok (s, e) ->
  patch ms originalTemplate templateAst [DiffEdit (Some p) old new] =
  ms_update ms s e (stringify (get templateAst (nodePath (Some p)))).
Proof.
  intros Hnode Hrange. unfold patch. cbn [changedNodes].
  unfold changedNode, touchesRoot. cbn [change_kind change_path kind_eqb negb].
  rewrite andb_false_r. rewrite Hrange. cbn [bind].
  destruct (nodePath (Some p)) as [|k path] eqn:Hpath; [congruence|].
  cbn [List.length Nat.eqb]. unfold collapsedChanges, uniqWith. cbn.
  apply bind_ret.
Qed.

(** X17. A pass over a template whose net effect is one replaced leaf
    patches one range.  The plugins have run and left the tree [tpl]; the
    pass links and re-renders it into [final]; when [final] has the content
    of the snapshot with the leaf at [p] replaced by a different primitive,
    the returned code is the buffer in which the range of the node that owns
    the changed property, as the snapshot has it, is replaced by the
    rendering of that node of [final]. *)
Theorem single_edit_is_one_update (filename : string)
    (plugins : list CodemodPlugin) (opts : value) (ms : buffer)
    (scriptASTs : option (list Program)) (templateAst : value)
    (scripts : option (list Program)) (tpl : value) (st : Stats) (final : value)
    (p : path) (old new s e : value) (ms' : buffer) :
  runVueCodemods filename opts plugins scriptASTs templateAst [] = Ok (scripts, tpl, st) ->
  truthy tpl = true ->
  diffedTemplate scripts tpl = Ok final ->
  wf_value templateAst = true ->
  wf_value final = true ->
  leafAt templateAst p = Some old ->
  isLeaf new = true ->
  same_primitive old new = false ->
  content final = content (setAt p new templateAst) ->
  nodePath (Some p) <> [] ->
  rangeOf (get templateAst (nodePath (Some p))) = Ok (s, e) ->
  ms_update ms s e (stringify (get final (nodePath (Some p)))) = Ok ms' ->
  templatePass ms scriptASTs templateAst filename plugins opts
  = Ok {| code := ms_toString ms'; stats := st |}.
Proof.
  intros Hrun Htpl Hfinal Hwf Hwfinal Hleaf Hnew Hdiff Hcontent Hnode Hrange Hupdate.
  assert (Hp : p <> []) by (intros ->; now apply Hnode).
  unfold templatePass. rewrite Hrun. cbn [bind].
  rewrite Htpl.
  destruct p as [|k rest]; [congruence|].
  rewrite (leafAt_truthy _ _ _ Hleaf). cbn [andb].
  rewrite Hfinal. cbn [bind].
  destruct (setAt_shape k rest new templateAst Hleaf) as [Hafter Hbefore].
  assert (Hfl : isLeaf final = false).
  { now rewrite <- isLeaf_content, Hcontent, isLeaf_content. }
  rewrite (templateDiff_of_trees _ _ Hbefore Hfl).
  rewrite (@deepDiffRec_single_content (k :: rest) templateAst final [] old new
             Hwf Hwfinal Hleaf Hnew Hdiff Hcontent).
  rewrite (patch_single _ _ _ _ old new Hnode Hrange), Hupdate. reflexivity.
Qed.

End OneEdit.

(** X17 on the pass over the sample component: the text of the paragraph is
    rewritten, and only the two characters of that text are replaced. *)
Lemma single_edit_is_one_update_witness :
  templatePass (X := Sample.externals) (M := Sample.simpleBuffer)
    (ms_new Sample.source) (Some ["let a"]) Sample.document "App.vue" [Sample.retext] VNull
  = Ok {| code :=
            ms_toString (MagicString := Sample.simpleBuffer)
              {| Sample.sb_original := Sample.source;
                 Sample.sb_edits :=
                   [{| Sample.e_start := 13; Sample.e_end := 15; Sample.e_text := "yo" |}] |};
          stats := [("retext", 1%Z)] |} /\
  ms_toString (MagicString := Sample.simpleBuffer)
    {| Sample.sb_original := Sample.source;
       Sample.sb_edits :=
         [{| Sample.e_start := 13; Sample.e_end := 15; Sample.e_text := "yo" |}] |}
  = ("<template><p>yo</p></template>" ++ Text.newline ++
     "<script>" ++ Text.newline ++ "let a" ++ Text.newline ++ "</script>")%string.
Proof.
  split; [|reflexivity].
  eapply (@single_edit_is_one_update Sample.externals Sample.simpleBuffer
           "App.vue" [Sample.retext] VNull (ms_new Sample.source)
           (Some ["let a"]) Sample.document
           (Some ["let a"])
           (setAt (Sample.pathToText ++ [Key "value"]) (VStr "yo") Sample.document)
           [("retext", 1%Z)] _
           (Sample.pathToText ++ [Key "value"]) (VStr "hi") (VStr "yo") (VNum 13) (VNum 15)
           {| Sample.sb_original := Sample.source;
              Sample.sb_edits :=
                [{| Sample.e_start := 13; Sample.e_end := 15; Sample.e_text := "yo" |}] |}).
  - reflexivity.
  - reflexivity.
  - reflexivity.
  - reflexivity.
  - reflexivity.
  - reflexivity.
  - reflexivity.
  - reflexivity.
  - reflexivity.
  - discriminate.
  - reflexivity.
  - reflexivity.
Defined.

(** ** What a plugin is handed on a script file *)

Section ScriptFile.

Context {X : Externals} {M : MagicString}.

Lemma runTsCodemods_agree (filename : string) (opts : value)
    (ps qs : list CodemodPlugin) :
  Forall2 (agreeOn (scriptFileContext filename opts)) ps qs ->
  forall ast st,
    runTsCodemods filename (optsOrDefault opts) ps ast st =
    runTsCodemods filename (optsOrDefault opts) qs ast st.
Proof.
  induction 1 as [|p q ps qs [Hname Hsame] _ IH]; intros ast st; [reflexivity|].
  simpl. rewrite Hname.
  rewrite (Hsame {| ctx_scriptASTs := Some [ast]; ctx_sfcAST := VNull;
                    ctx_filename := filename; ctx_opts := optsOrDefault opts |})
    by (repeat split; now exists ast).
  destruct (plugin_transform q _) as [m|e]; simpl; [apply IH | reflexivity].
Qed.

(** X18. On a file whose name does not end in [.vue], a plugin is only
    ever called with the pass's file name, the pass's options (the empty
    object when none were given), [null] as the template and an array of
    exactly one script tree: what a plugin would do with any other context
    has no effect on the result of [transform]. *)
Theorem script_file_plugins_get_no_template (src filename : string) (opts : value)
    (ps qs : list CodemodPlugin) :
  Text.endsWith filename ".vue" = false ->
  Forall2 (agreeOn (scriptFileContext filename opts)) ps qs ->
  transform src filename ps opts = transform src filename qs opts.
Proof.
  intros Hts Hagree. unfold transform. rewrite Hts. unfold transformTypescriptFile.
  destruct (parseTs src) as [ast|e]; simpl; [|reflexivity].
  now rewrite (runTsCodemods_agree Hagree).
Qed.

End ScriptFile.

Lemma scriptsOnly_agrees :
  Forall2 (agreeOn (X := Sample.externals) (scriptFileContext "main.ts" VUndefined))
    [Sample.idle] [Sample.scriptsOnly].
Proof.
  constructor; [|constructor]. split; [reflexivity|].
  intros ctx [_ [_ [Hnull _]]]. simpl. rewrite Hnull. reflexivity.
Defined.

(** X18 on a one-line script, with no options given: the plugin that
    throws on a template does what the idle plugin does. *)
Lemma script_file_plugins_witness :
  transform (X := Sample.externals) (M := Sample.simpleBuffer)
    "let a" "main.ts" [Sample.idle] VUndefined
  = transform (X := Sample.externals) (M := Sample.simpleBuffer)
      "let a" "main.ts" [Sample.scriptsOnly] VUndefined.
Proof.
  apply (@script_file_plugins_get_no_template Sample.externals Sample.simpleBuffer
           "let a" "main.ts" VUndefined [Sample.idle] [Sample.scriptsOnly]).
  - reflexivity.
  - exact scriptsOnly_agrees.
Defined.

(** ** When the reduction returns *)

Lemma changedNodes_length (orig tpl : value) (diff : list change) :
  forall flag changed flag',
    changedNodes orig tpl flag diff = Ok (changed, flag') ->
    List.length changed = List.length diff.
Proof.
  induction diff as [|p rest IH]; simpl; intros flag changed flag' H.
  - inversion H. reflexivity.
  - apply bind_Ok_inv in H. destruct H as [[c f1] [_ H]].
    apply bind_Ok_inv in H. destruct H as [[cs f2] [Hrest H]].
    inversion H; subst. simpl. f_equal. eapply IH; eauto.
Qed.

(** Once the flag is set, the only range that is read is the root's. *)
Lemma changedNodes_flagged_returns (orig tpl : value) (diff : list change) :
  (exists r, rangeOf orig = Ok r) ->
  exists changed, changedNodes orig tpl true diff = Ok (changed, true).
Proof.
  intros [[s e] Hroot]. induction diff as [|p rest [cs IH]]; [now exists []|].
  cbn [changedNodes]. unfold changedNode at 1.
  replace (if touchesRoot p then true else true) with true
    by (destruct (touchesRoot p); reflexivity).
  rewrite Hroot. cbn [bind]. rewrite IH. cbn [bind]. eauto.
Qed.

Lemma changedNodes_first_range (orig tpl : value) (flag : bool) (p : change)
    (rest : list change) (changed : list ChangedNode) (flag' : bool) :
  changedNodes orig tpl flag (p :: rest) = Ok (changed, flag') ->
  (exists r, rangeOf (if (if touchesRoot p then true else flag) then orig
                      else get orig (nodePath (change_path p))) = Ok r) /\
  exists cs, changedNodes orig tpl (if touchesRoot p then true else flag) rest = Ok (cs, flag').
Proof.
  cbn [changedNodes]. intros H.
  apply bind_Ok_inv in H. destruct H as [[c f1] [Hc H]].
  apply bind_Ok_inv in H. destruct H as [[cs f2] [Hrest H]].
  inversion H; subst. clear H.
  unfold changedNode in Hc.
  apply bind_Ok_inv in Hc. destruct Hc as [[s e] [Hr Hc]].
  inversion Hc; subst. clear Hc.
  split; [now exists (s, e) | now exists cs].
Qed.

Lemma changedNodes_local_iff (orig tpl : value) (diff : list change) :
  (exists changed flag, changedNodes orig tpl false diff = Ok (changed, flag)) <->
  (forall p, In p (localEntries diff) ->
     exists r, rangeOf (get orig (nodePath (change_path p))) = Ok r) /\
  (existsb touchesRoot diff = true -> exists r, rangeOf orig = Ok r).
Proof.
  induction diff as [|p rest IH].
  - split.
    + intros _. split; [intros p [] | discriminate].
    + intros _. now exists [], false.
  - cbn [localEntries existsb]. split.
    + intros [changed [flag H]].
      apply changedNodes_first_range in H. destruct H as [Hr [cs Hrest]].
      destruct (touchesRoot p) eqn:Hp.
      * split; [intros q [] | intros _; exact Hr].
      * cbn [orb]. assert (Hex : exists changed flag,
                     changedNodes orig tpl false rest = Ok (changed, flag)) by eauto.
        apply IH in Hex. destruct Hex as [Hloc Hroot].
        split; [|exact Hroot].
        intros q [<-|Hq]; [exact Hr | now apply Hloc].
    + intros [Hloc Hroot]. cbn [changedNodes]. unfold changedNode at 1.
      destruct (touchesRoot p) eqn:Hp.
      * destruct (Hroot eq_refl) as [[s e] Hr]. rewrite Hr. cbn [bind].
        destruct (@changedNodes_flagged_returns orig tpl rest) as [cs Hcs];
          [now exists (s, e)|].
        rewrite Hcs. cbn [bind]. eauto.
      * destruct (Hloc p (or_introl eq_refl)) as [[s e] Hr]. rewrite Hr. cbn [bind].
        destruct (proj2 IH) as [cs [f Hcs]].
        { split; [intros q Hq; apply Hloc; now right | exact Hroot]. }
        rewrite Hcs. cbn [bind]. eauto.
Qed.

(** X19. The reduction throws only on a range it cannot read, and it reads
    the range of the snapshot's node at the owning path of every entry that
    comes before the first shallow entry that is not an Edit, and the range
    of the root once there is such an entry: it returns exactly when those
    ranges are there.  When it returns, there is one record per entry, and
    the flag tells whether some entry is shallow and not an Edit. *)
Theorem reduction_returns (orig tpl : value) (diff : list change) :
  ((exists changed flag, changedNodes orig tpl false diff = Ok (changed, flag)) <->
   (forall p, In p (localEntries diff) ->
      exists r, rangeOf (get orig (nodePath (change_path p))) = Ok r) /\
   (existsb touchesRoot diff = true -> exists r, rangeOf orig = Ok r)) /\
  (forall changed flag,
     changedNodes orig tpl false diff = Ok (changed, flag) ->
     flag = existsb touchesRoot diff /\ List.length changed = List.length diff).
Proof.
  split; [apply changedNodes_local_iff|].
  intros changed flag H. split.
  - now apply changedNodes_flag in H.
  - eapply changedNodes_length; eauto.
Qed.

(** X19 on the sample, where a text node is appended to the top-level
    children after the text of the paragraph is rewritten: the second entry
    sets the flag, and the [type] entry after it, whose owning path is empty,
    is no obstacle. *)
Lemma reduction_returns_witness :
  localEntries
    [DiffEdit (Some (Sample.pathToText ++ [Key "value"])) (VStr "hi") (VStr "yo");
     DiffArray (Some [Key "children"]) 3 (DiffNew None Sample.note);
     DiffEdit (Some [Key "type"]) (VStr "VDocumentFragment") (VStr "VElement")]
  = [DiffEdit (Some (Sample.pathToText ++ [Key "value"])) (VStr "hi") (VStr "yo")] /\
  exists changed flag,
    changedNodes Sample.document Sample.documentWithNote false
      [DiffEdit (Some (Sample.pathToText ++ [Key "value"])) (VStr "hi") (VStr "yo");
       DiffArray (Some [Key "children"]) 3 (DiffNew None Sample.note);
       DiffEdit (Some [Key "type"]) (VStr "VDocumentFragment") (VStr "VElement")]
    = Ok (changed, flag) /\
    flag = true /\ List.length changed = 3.
Proof.
  split; [reflexivity|].
  destruct (@reduction_returns Sample.document Sample.documentWithNote
              [DiffEdit (Some (Sample.pathToText ++ [Key "value"])) (VStr "hi") (VStr "yo");
               DiffArray (Some [Key "children"]) 3 (DiffNew None Sample.note);
               DiffEdit (Some [Key "type"]) (VStr "VDocumentFragment") (VStr "VElement")])
    as [Hiff Hshape].
  destruct (proj2 Hiff) as [changed [flag H]].
  - split.
    + intros p [<-|[]]. eexists. reflexivity.
    + intros _. eexists. reflexivity.
  - exists changed, flag. split; [exact H|]. exact (Hshape changed flag H).
Defined.

(** X20. The root-changed flag is never reset: from the entry that sets
    it on, every record takes the range of the root, whatever its entry's
    path and kind, and the only range the reduction reads is the root's. *)
Theorem flag_is_sticky (orig tpl s e : value) (diff : list change) :
  rangeOf orig = Ok (s, e) ->
  changedNodes orig tpl true diff = Ok (map (rootRecord tpl s e) diff, true).
Proof.
  intros Hroot. induction diff as [|p rest IH]; [reflexivity|].
  cbn [changedNodes map]. unfold changedNode at 1.
  replace (if touchesRoot p then true else true) with true by (destruct (touchesRoot p); reflexivity).
  rewrite Hroot. cbn [bind]. rewrite IH. reflexivity.
Qed.

(** X20 on the sample: an Edit of a property of the root, which alone would
    throw, after the flag has been set. *)
Lemma flag_is_sticky_witness :
  changedNodes Sample.document Sample.documentWithNote true
    [DiffEdit (Some [Key "type"]) (VStr "VDocumentFragment") (VStr "VElement")]
  = Ok (map (rootRecord Sample.documentWithNote (VNum 0) (VNum 55))
          [DiffEdit (Some [Key "type"]) (VStr "VDocumentFragment") (VStr "VElement")],
        true).
Proof.
  apply (@flag_is_sticky Sample.document Sample.documentWithNote (VNum 0) (VNum 55)
           [DiffEdit (Some [Key "type"]) (VStr "VDocumentFragment") (VStr "VElement")]).
  reflexivity.
Defined.

(** X5 on the sample: the record of the paragraph's text and a record of
    the script element both survive, and their paths are unrelated. *)
Lemma survivors_are_unrelated_witness :
  In Sample.textRecord
    [Sample.textRecord; Sample.paragraphRecord;
     mkChangedNode [Key "children"; Idx 2] VNull (VNum 31) (VNum 55)] /\
  ~ related (cn_path Sample.textRecord) [Key "children"; Idx 2].
Proof.
  destruct (survivors_are_unrelated
              [Sample.textRecord; Sample.paragraphRecord;
               mkChangedNode [Key "children"; Idx 2] VNull (VNum 31) (VNum 55)])
    as [Hfrom Hapart].
  split.
  - apply Hfrom. simpl. left. reflexivity.
  - apply (Hapart 0 1 Sample.textRecord
             (mkChangedNode [Key "children"; Idx 2] VNull (VNum 31) (VNum 55))).
    + discriminate.
    + reflexivity.
    + reflexivity.
Defined.

(** ** The pass over a component *)

Section ComponentPass.

Context {X : Externals} {M : MagicString}.

(** X21. [transformVueFile] reads the properties [sfcAST] and [scriptASTs]
    of what [parseVue] returns, which has [vueAst] and [scriptAsts] instead:
    whenever [parseVue] returns, reading [templateBody] of the missing
    [sfcAST] throws a [TypeError], before any plugin is called.  So on a file
    whose name ends in [.vue], [transform] never returns a result, and the
    plugins have no effect on what it throws. *)
Theorem component_pass_throws (src filename : string) (plugins : list CodemodPlugin)
    (opts : value) :
  Text.endsWith filename ".vue" = true ->
  (forall parsed,
     parseVue src = Ok parsed ->
     transform src filename plugins opts =
     Throw (TypeError "Cannot read properties of undefined (reading 'templateBody')")) /\
  (forall r, transform src filename plugins opts <> Ok r) /\
  transform src filename plugins opts = transform src filename [] opts.
Proof.
  intros Hvue. unfold transform. rewrite Hvue. split; [|split].
  - intros parsed Hparse. now apply transformVueFile_throws with (parsed := parsed).
  - intros r. apply transformVueFile_never_returns.
  - unfold transformVueFile. destruct (parseVue src); reflexivity.
Qed.

End ComponentPass.

(** X21 on the sample component, with a plugin that would rewrite the text
    of the paragraph. *)
Lemma component_pass_throws_witness :
  parseVue (X := Sample.externals) Sample.source = Ok Sample.parsedSource /\
  transform (X := Sample.externals) (M := Sample.simpleBuffer)
    Sample.source "App.vue" [Sample.retext] VNull
  = Throw (TypeError "Cannot read properties of undefined (reading 'templateBody')").
Proof.
  split; [reflexivity|].
  apply (proj1 (@component_pass_throws Sample.externals Sample.simpleBuffer
                  Sample.source "App.vue" [Sample.retext] VNull eq_refl)
           Sample.parsedSource).
  reflexivity.
Defined.
